(** * The paginated record-import routes of gearjot-poc

    A shallow embedding of the two [GET] import route handlers
    ([src/unnamed/part_000] and [src/unnamed/part_001]), of the constants
    of [src/lib/constants.ts] they read, and of the webhook dispatch
    [sendToWebhook] that shares their naming convention.

    The handlers are sequential [async] functions.  Their effects are made
    explicit: the record collection and the list of collaborator calls are
    threaded through as a [World]; what the integration platform answers is
    an input of the run ([External]).  Of the collaborators only the action
    call may throw here; the database and the connection directory always
    answer.  Logging is not modelled. *)

From Stdlib Require Import String List Bool Arith Lia.
Import ListNotations.
Open Scope string_scope.
Open Scope list_scope.

Set Implicit Arguments.

(** ** JavaScript values used by the routes *)

Module Js.

(** A value of type [string | null | undefined]: [None] stands for both
    [null] and [undefined], which the routes never tell apart.  The only
    string operations the routes use are equality and the handling of the
    ASCII prefix "get-", on which bytes and UTF-16 code units agree. *)
Definition value := option string.

(** Truthiness: [null], [undefined] and the empty string are falsy. *)
Definition truthy (v : value) : bool :=
  match v with
  | Some s => negb (s =? "")
  | None => false
  end.

(** [a || b] *)
Definition or (a b : value) : value := if truthy a then a else b.

(** [s.startsWith(p)] *)
Definition startsWith (p s : string) : bool := String.prefix p s.

(** [s.substring(n)] *)
Definition substring (n : nat) (s : string) : string :=
  String.substring n (String.length s - n) s.

(** [s.replace(pat, rep)] with a string pattern: the first occurrence only. *)
Fixpoint replace (pat rep s : string) : string :=
  if String.prefix pat s then (rep ++ substring (String.length pat) s)%string
  else match s with
       | EmptyString => EmptyString
       | String c s' => String c (replace pat rep s')
       end.

(** [l.includes(x)] *)
Definition includes (x : string) (l : list string) : bool :=
  existsb (String.eqb x) l.

Definition value_eqb (a b : value) : bool :=
  match a, b with
  | Some x, Some y => x =? y
  | None, None => true
  | _, _ => false
  end.

End Js.

(** ** [src/lib/constants.ts] *)

Module Constants.

Record RecordAction := {
  key : string;
  name : string;
  type : string
}.

Definition RECORD_ACTIONS : list RecordAction :=
  [ {| key := "get-equipment"; name := "Equipment"; type := "default" |} ].

End Constants.

(** ** Data *)

(** A record as the action returns it and as the collection holds it
    ([IRecord]).  Every property may be missing on a raw record. *)
Record IRecord := {
  id : Js.value;
  name : Js.value;
  fields : list (string * string);
  customerId : Js.value;
  recordType : Js.value
}.

(** The filter of [Record.findOne]. *)
Record Query := {
  q_id : Js.value;
  q_customerId : Js.value;
  q_recordType : Js.value
}.

Definition key_of (r : IRecord) : Query :=
  {| q_id := id r; q_customerId := customerId r; q_recordType := recordType r |}.

Definition matches (q : Query) (r : IRecord) : bool :=
  Js.value_eqb (id r) (q_id q)
  && Js.value_eqb (customerId r) (q_customerId q)
  && Js.value_eqb (recordType r) (q_recordType q).

Record Connection := { connection_id : string }.

(** What one [.run({ cursor })] call yields: [result.output] with its
    [records] and [cursor], or an exception. *)
Inductive RunResult :=
| Output (records : option (list IRecord)) (cursor : Js.value)
| Throws (message : string).

(** The integration platform as one invocation sees it: the [items] of
    [client.connections.find()] and the results of the successive [run]
    calls, in call order.  The list is the finite part of the platform's
    behaviour that is known; a run that asks for more than it holds has no
    outcome in this model ([Unscripted] below). *)
Record External := {
  items : option (list Connection);
  responses : list RunResult
}.

(** Calls made to the collaborators, oldest first. *)
Inductive Event :=
| ConnectToDatabase
| ConnectionsFind (customer : Js.value)
| ActionRun (connection actionKey : string) (instanceKey cursor : Js.value)
| RecordFindOne (q : Query)
| RecordCreate (r : IRecord).

Record World := {
  store : list IRecord;
  trace : list Event
}.

Definition log (e : Event) (w : World) : World :=
  {| store := store w; trace := trace w ++ [e] |}.

(** Modelled from the spec: the model [Record] of [@/models/record] is not
    among the sources.  The persistent store "supports point lookup by
    (id, customerId, recordType) and insert-if-absent of a normalized
    record": [findOne] yields the first stored record with the three
    values of the filter, [create] adds the record it is given. *)
Definition Record_findOne (q : Query) (w : World) : option IRecord * World :=
  (find (matches q) (store w), log (RecordFindOne q) w).

Definition Record_create (r : IRecord) (w : World) : World :=
  log (RecordCreate r) {| store := store w ++ [r]; trace := trace w |}.

(** ** Responses *)

Inductive Body :=
| ErrorBody (error : string) (details : option string)
| FailureBody (success : bool) (error : string)
| SummaryBody (success : bool)
    (recordsCount newRecordsCount existingRecordsCount : nat).

Record NextResponse := { status : nat; body : Body }.

(** [NextResponse.json(body, { status })]; the status defaults to 200. *)
Definition json (b : Body) (st : option nat) : NextResponse :=
  {| status := match st with Some n => n | None => 200 end; body := b |}.

(** The request as the handler reads it.
    Modelled from the spec: [getAuthFromRequest] of [@/lib/server-auth] is
    not among the sources; the authenticator "yields a tenant identifier or
    indicates unauthenticated", so its answer is a field of the request. *)
Record NextRequest := {
  auth_customerId : Js.value;
  searchParams_action : Js.value;
  searchParams_instanceKey : Js.value
}.

(** ** The loops shared by both routes *)

Record Counters := {
  allRecords : list IRecord;
  newRecordsCount : nat;
  existingRecordsCount : nat
}.

Inductive Completion (A : Type) :=
| Normal (a : A)
| Thrown (message : string)
| Unscripted.

Arguments Thrown {A} message.
Arguments Unscripted {A}.

(** [result.output.records || []] *)
Definition records_of (recs : option (list IRecord)) : list IRecord :=
  match recs with Some l => l | None => [] end.

Section Loops.

(** The values the loop body closes over. *)
Variable auth : Js.value.
Variable actionKey : string.
Variable instanceKey : Js.value.
Variable firstConnection : Connection.
(** The callback of [records.map(...)] that builds [recordsToSave]. *)
Variable toSave : IRecord -> IRecord.

(** The filter of [Record.findOne({ id: record.id, customerId:
    auth.customerId, recordType: record.recordType })]. *)
Definition query_for (record : IRecord) : Query :=
  {| q_id := id record; q_customerId := auth;
     q_recordType := recordType record |}.

(** [existingRecordsCount++] *)
Definition bump_existing (c : Counters) : Counters :=
  {| allRecords := allRecords c;
     newRecordsCount := newRecordsCount c;
     existingRecordsCount := S (existingRecordsCount c) |}.

(** [newRecordsCount++] *)
Definition bump_new (c : Counters) : Counters :=
  {| allRecords := allRecords c;
     newRecordsCount := S (newRecordsCount c);
     existingRecordsCount := existingRecordsCount c |}.

(** [for (const record of recordsToSave) { ... }] *)
Fixpoint for_record_of (recordsToSave : list IRecord) (w : World) (c : Counters)
  : World * Counters :=
  match recordsToSave with
  | [] => (w, c)
  | record :: rest =>
      let (existingRecord, w1) := Record_findOne (query_for record) w in
      match existingRecord with
      | Some _ => for_record_of rest w1 (bump_existing c)
      | None => for_record_of rest (Record_create record w1) (bump_new c)
      end
  end.

(** One pass through the body of [while (hasMoreRecords)] once [run] has
    answered [records] (already defaulted to the empty array). *)
Definition save_batch (records : list IRecord) (w : World) (c : Counters)
  : World * Counters :=
  let c1 := {| allRecords := allRecords c ++ records;
               newRecordsCount := newRecordsCount c;
               existingRecordsCount := existingRecordsCount c |} in
  if Nat.ltb 0 (List.length records)
  then for_record_of (map toSave records) w c1
  else (w, c1).

(** The call [client.connection(firstConnection.id).action(actionKey,
    { instanceKey: instanceKey || undefined }).run({ cursor })]. *)
Definition call (cursor : Js.value) : Event :=
  ActionRun (connection_id firstConnection) actionKey
            (Js.or instanceKey None) cursor.

(** [while (hasMoreRecords) { ... }], by recursion on the answers that
    remain.  [currentCursor] is the cursor the next call is made with; the
    call is made even when the script holds no answer to it. *)
Fixpoint while_hasMoreRecords (script : list RunResult)
    (currentCursor : Js.value) (w : World) (c : Counters)
  : Completion Counters * World :=
  let w0 := log (call currentCursor) w in
  match script with
  | [] => (Unscripted, w0)
  | Throws message :: _ => (Thrown message, w0)
  | Output recs cursor :: script' =>
      let records := records_of recs in
      let (w1, c1) := save_batch records w0 c in
      if Js.truthy cursor
      then while_hasMoreRecords script' cursor w1 c1
      else (Normal c1, w1)
  end.

Definition init : Counters :=
  {| allRecords := []; newRecordsCount := 0; existingRecordsCount := 0 |}.

End Loops.

(** ** [src/unnamed/part_000] *)

Module Part000.

Definition defaultFormTypes : list string :=
  map (fun action => Js.replace "get-" "" (Constants.key action))
      (filter (fun action => Constants.type action =? "default")
              Constants.RECORD_ACTIONS).

Definition formId (actionKey : string) : Js.value :=
  if Js.startsWith "get-" actionKey
  then Some (Js.substring 4 actionKey)
  else None.

(** [formId && !defaultFormTypes.includes(formId)], read as a condition. *)
Definition isCustomForm (actionKey : string) : bool :=
  match formId actionKey with
  | Some f => Js.truthy (Some f) && negb (Js.includes f defaultFormTypes)
  | None => false
  end.

Definition toSave (auth : Js.value) (actionKey : string)
    (instanceKey : Js.value) (record : IRecord) : IRecord :=
  {| id := id record;
     name := Js.or (Js.or (name record) (id record)) (Some "Unnamed Record");
     fields := fields record;
     customerId := auth;
     recordType := if isCustomForm actionKey then instanceKey
                   else Some actionKey |}.

Definition GET (ext : External) (request : NextRequest) (w : World)
  : option NextResponse * World :=
  let auth := auth_customerId request in
  if negb (Js.truthy auth)
  then (Some (json (ErrorBody "Unauthorized" None) (Some 401)), w)
  else
  match searchParams_action request with
  | None => (Some (json (ErrorBody "Action key is required" None) (Some 400)), w)
  | Some actionKey =>
  if negb (Js.truthy (Some actionKey))
  then (Some (json (ErrorBody "Action key is required" None) (Some 400)), w)
  else
  let instanceKey := searchParams_instanceKey request in
  if isCustomForm actionKey && negb (Js.truthy instanceKey)
  then (Some (json (ErrorBody "Instance key is required for custom forms" None)
                   (Some 400)), w)
  else
  let w := log ConnectToDatabase w in
  let w := log (ConnectionsFind auth) w in
  match match items ext with Some l => hd_error l | None => None end with
  | None => (Some (json (FailureBody false "No connection found") None), w)
  | Some firstConnection =>
      match while_hasMoreRecords auth actionKey instanceKey firstConnection
              (toSave auth actionKey instanceKey) (responses ext) None w init
      with
      | (Normal c, w') =>
          (Some (json (SummaryBody true (List.length (allRecords c))
                         (newRecordsCount c) (existingRecordsCount c)) None),
           w')
      | (Thrown message, w') =>
          (Some (json (ErrorBody "Internal Server Error" (Some message))
                      (Some 500)), w')
      | (Unscripted, w') => (None, w')
      end
  end
  end.

End Part000.

(** ** [src/unnamed/part_001] *)

Module Part001.

Definition toSave (auth : Js.value) (actionKey : string)
    (instanceKey : Js.value) (record : IRecord) : IRecord :=
  {| id := id record;
     name := name record;
     fields := fields record;
     customerId := auth;
     recordType := if actionKey =? "get-objects" then instanceKey
                   else Some actionKey |}.

Definition GET (ext : External) (request : NextRequest) (w : World)
  : option NextResponse * World :=
  let auth := auth_customerId request in
  if negb (Js.truthy auth)
  then (Some (json (ErrorBody "Unauthorized" None) (Some 401)), w)
  else
  match searchParams_action request with
  | None => (Some (json (ErrorBody "Action key is required" None) (Some 400)), w)
  | Some actionKey =>
  if negb (Js.truthy (Some actionKey))
  then (Some (json (ErrorBody "Action key is required" None) (Some 400)), w)
  else
  let instanceKey := searchParams_instanceKey request in
  if (actionKey =? "get-objects") && negb (Js.truthy instanceKey)
  then (Some (json (ErrorBody "Instance key is required for get-objects action"
                              None) (Some 400)), w)
  else
  let w := log ConnectToDatabase w in
  let w := log (ConnectionsFind auth) w in
  match match items ext with Some l => hd_error l | None => None end with
  | None => (Some (json (FailureBody false "No connection found") None), w)
  | Some firstConnection =>
      match while_hasMoreRecords auth actionKey instanceKey firstConnection
              (toSave auth actionKey instanceKey) (responses ext) None w init
      with
      | (Normal c, w') =>
          (Some (json (SummaryBody true (List.length (allRecords c))
                         (newRecordsCount c) (existingRecordsCount c)) None),
           w')
      | (Thrown message, w') =>
          (Some (json (ErrorBody "Internal Server Error" None) (Some 500)), w')
      | (Unscripted, w') => (None, w')
      end
  end
  end.

End Part001.

(** ** Both routes at once *)

Inductive Route := part_000 | part_001.

Definition GET (route : Route)
  : External -> NextRequest -> World -> option NextResponse * World :=
  match route with
  | part_000 => Part000.GET
  | part_001 => Part001.GET
  end.

(** The condition under which a route asks for an instance key. *)
Definition isCustom (route : Route) (actionKey : string) : bool :=
  match route with
  | part_000 => Part000.isCustomForm actionKey
  | part_001 => actionKey =? "get-objects"
  end.

Definition toSave (route : Route)
  : Js.value -> string -> Js.value -> IRecord -> IRecord :=
  match route with
  | part_000 => Part000.toSave
  | part_001 => Part001.toSave
  end.

(** [connectionsResponse.items?.[0]] *)
Definition firstConnection (ext : External) : option Connection :=
  match items ext with Some l => hd_error l | None => None end.

(** The part of the handler after the loop: the summary, or the [catch]
    block.  Only [part_000] reports the message as [details]. *)
Definition respond (route : Route) (r : Completion Counters * World)
  : option NextResponse * World :=
  match r with
  | (Normal c, w') =>
      (Some (json (SummaryBody true (List.length (allRecords c))
                     (newRecordsCount c) (existingRecordsCount c)) None), w')
  | (Thrown message, w') =>
      (Some (json (ErrorBody "Internal Server Error"
                     match route with
                     | part_000 => Some message
                     | part_001 => None
                     end) (Some 500)), w')
  | (Unscripted, w') => (None, w')
  end.

(** The world once [connectToDatabase()] and [client.connections.find()]
    have been awaited. *)
Definition connected_world (auth : Js.value) (w : World) : World :=
  log (ConnectionsFind auth) (log ConnectToDatabase w).

(** The loop as the handler of [route] enters it. *)
Definition pages (route : Route) (ext : External) (request : NextRequest)
    (actionKey : string) (conn : Connection) (w : World)
  : Completion Counters * World :=
  while_hasMoreRecords (auth_customerId request) actionKey
    (searchParams_instanceKey request) conn
    (toSave route (auth_customerId request) actionKey
       (searchParams_instanceKey request))
    (responses ext) None (connected_world (auth_customerId request) w) init.

(** ** Vocabulary of the statements *)

(** The request passes the three guards at the top of the handler. *)
Definition accepted (route : Route) (request : NextRequest) (actionKey : string)
  : Prop :=
  Js.truthy (auth_customerId request) = true
  /\ searchParams_action request = Some actionKey
  /\ actionKey <> ""
  /\ (isCustom route actionKey = true ->
      Js.truthy (searchParams_instanceKey request) = true).

(** A 200 response carrying the summary. *)
Definition summary (recordsCount newRecordsCount existingRecordsCount : nat)
  : NextResponse :=
  json (SummaryBody true recordsCount newRecordsCount existingRecordsCount) None.

(** The records a run added to the collection: what the collection holds
    beyond its length before the run. *)
Definition imported (route : Route) (ext : External) (request : NextRequest)
    (w : World) : list IRecord :=
  skipn (List.length (store w)) (store (snd (GET route ext request w))).

Definition is_ActionRun (e : Event) : bool :=
  match e with ActionRun _ _ _ _ => true | _ => false end.

Definition is_store_call (e : Event) : bool :=
  match e with RecordFindOne _ | RecordCreate _ => true | _ => false end.

(** The calls to the external action among the events of a trace. *)
Definition run_calls (tr : list Event) : list Event := filter is_ActionRun tr.

(** The raw records a run of the loop over [script] reads: those of every
    page up to and including the first one whose cursor is falsy. *)
Fixpoint observed (script : list RunResult) : list IRecord :=
  match script with
  | Output recs cursor :: script' =>
      records_of recs ++ (if Js.truthy cursor then observed script' else [])
  | _ => []
  end.

(** The script holds a page with a falsy cursor and no exception before it. *)
Fixpoint completes (script : list RunResult) : bool :=
  match script with
  | Output _ cursor :: script' =>
      if Js.truthy cursor then completes script' else true
  | _ => false
  end.

(** The cursors with which the loop calls the action, in order, when the
    first call is made with [cursor]. *)
Fixpoint cursors_sent (script : list RunResult) (cursor : Js.value)
  : list Js.value :=
  cursor ::
  match script with
  | Output _ next :: script' =>
      if Js.truthy next then cursors_sent script' next else []
  | _ => []
  end.

(** The action's logical type in the spec's words: the key without the
    fetch prefix, as [defaultFormTypes] derives the default type names. *)
Definition logical_type (actionKey : string) : string :=
  Js.replace "get-" "" actionKey.

(** The stamp the spec describes: the instance key for a custom action, the
    logical type for a default one. *)
Definition stamp_as_specified (route : Route) (actionKey : string)
    (instanceKey : Js.value) : Js.value :=
  if isCustom route actionKey then instanceKey
  else Some (logical_type actionKey).

(** The stamp the routes apply. *)
Definition stamp (route : Route) (actionKey : string) (instanceKey : Js.value)
  : Js.value :=
  if isCustom route actionKey then instanceKey else Some actionKey.

(** ** Sample data *)

Module Sample.

Definition raw (i : Js.value) (n : Js.value) : IRecord :=
  {| id := i; name := n; fields := [];
     customerId := None; recordType := None |}.

Definition empty : World := {| store := []; trace := [] |}.

Definition connected (pages : list RunResult) : External :=
  {| items := Some [ {| connection_id := "conn-1" |} ];
     responses := pages |}.

Definition request (action instanceKey : Js.value) : NextRequest :=
  {| auth_customerId := Some "customer-1";
     searchParams_action := action;
     searchParams_instanceKey := instanceKey |}.

(** "two pages of 2 and 1 records respectively" *)
Definition two_pages : list RunResult :=
  [ Output (Some [raw (Some "e1") (Some "Drill"); raw (Some "e2") None])
           (Some "c1");
    Output (Some [raw (Some "e3") (Some "Saw")]) None ].

End Sample.

(** ** More vocabulary: exceptions, store calls, tenants *)

(** The message of the exception that ends the loop over [script], when
    the loop meets one before a page with a falsy cursor. *)
Fixpoint thrown (script : list RunResult) : option string :=
  match script with
  | Throws message :: _ => Some message
  | Output _ cursor :: script' =>
      if Js.truthy cursor then thrown script' else None
  | [] => None
  end.

(** The events a run added to the trace. *)
Definition events_since (w w' : World) : list Event :=
  skipn (List.length (trace w)) (trace w').

(** The filters of the [Record.findOne] calls of a trace, in call order. *)
Definition lookups (tr : list Event) : list Query :=
  flat_map (fun e => match e with RecordFindOne q => [q] | _ => [] end) tr.

(** The arguments of the [Record.create] calls of a trace, in call order. *)
Definition created (tr : list Event) : list IRecord :=
  flat_map (fun e => match e with RecordCreate r => [r] | _ => [] end) tr.

(** The records of the collection that belong to the tenant [auth]. *)
Definition tenant_records (auth : Js.value) (st : list IRecord)
  : list IRecord :=
  filter (fun r => Js.value_eqb (customerId r) auth) st.

(** ** [src/lib/webhook-utils.ts] (the second file of
    [src/src/components/ui/toast.tsx]) *)

Module Webhook.

(** The payload, [{ type, data, customerId, instanceKey? }]. *)
Record Payload := {
  p_type : string;
  p_data : IRecord;
  p_customerId : Js.value;
  p_instanceKey : Js.value
}.

Definition WEBHOOK_URLS : list (string * string) :=
  [ ("contacts",
     "https://api.integration.app/webhooks/app-events/4940cec8-9d47-41dd-8d8a-43c6741b048d");
    ("companies",
     "https://api.integration.app/webhooks/app-events/0502c111-b765-47fd-94cc-450b93bd9e5c");
    ("custom",
     "https://api.integration.app/webhooks/app-events/edd3514f-9d77-4ecf-bf3e-376fd8b10b14") ].

(** The property names every object literal inherits from
    [Object.prototype]; [key in WEBHOOK_URLS] holds for them too. *)
Definition Object_prototype : list string :=
  [ "constructor"; "hasOwnProperty"; "isPrototypeOf"; "propertyIsEnumerable";
    "toLocaleString"; "toString"; "valueOf"; "__defineGetter__";
    "__defineSetter__"; "__lookupGetter__"; "__lookupSetter__"; "__proto__" ].

(** What [webhookUrl] holds when [fetch] is called: one of the strings of
    [WEBHOOK_URLS], or an inherited member that is no URL. *)
Inductive Target :=
| Url (u : string)
| Inherited (member : string).

Fixpoint own (k : string) (o : list (string * string)) : option string :=
  match o with
  | [] => None
  | (k', v) :: o' => if k =? k' then Some v else own k o'
  end.

(** [WEBHOOK_URLS.custom] *)
Definition custom_url : string :=
  match own "custom" WEBHOOK_URLS with Some u => u | None => "" end.

(** [key in WEBHOOK_URLS] *)
Definition has (k : string) : bool :=
  match own k WEBHOOK_URLS with
  | Some _ => true
  | None => Js.includes k Object_prototype
  end.

(** [WEBHOOK_URLS[key]], for a key that is [in] the object. *)
Definition get (k : string) : Target :=
  match own k WEBHOOK_URLS with
  | Some u => Url u
  | None => Inherited k
  end.

Section Actions.

(** [RECORD_ACTIONS], kept as a variable so that the facts below also tell
    what an edited constants file gives. *)
Variable RECORD_ACTIONS : list Constants.RecordAction.

(** Unlike the import route, the keys are kept whole here. *)
Definition defaultFormTypes : list string :=
  map (fun action => Constants.key action)
      (filter (fun action => Constants.type action =? "default")
              RECORD_ACTIONS).

(** [payload.instanceKey || ""] *)
Definition recordType (payload : Payload) : string :=
  match Js.or (p_instanceKey payload) (Some "") with
  | Some s => s
  | None => ""
  end.

Definition isDefaultType (payload : Payload) : bool :=
  Js.includes (recordType payload) defaultFormTypes.

Definition webhookUrl (payload : Payload) : Target :=
  if isDefaultType payload
  then let webhookKey := Js.replace "get-" "" (recordType payload) in
       if has webhookKey then get webhookKey else Url custom_url
  else Url custom_url.

Definition finalPayload (payload : Payload) : Payload :=
  if negb (isDefaultType payload)
  then {| p_type := p_type payload;
          p_data := p_data payload;
          p_customerId := p_customerId payload;
          p_instanceKey := Some (recordType payload) |}
  else payload.

(** The POST that [fetch] is called with; method and headers are fixed. *)
Record Post := { url : Target; post_body : Payload }.

(** What [response.json()] gives. *)
Inductive Json :=
| Parsed (v : string)
| Malformed (message : string).

(** What [fetch] gives: a rejection, or a response. *)
Inductive Fetched :=
| Rejected (message : string)
| Response (ok : bool) (statusText : string) (json : Json).

Inductive Outcome :=
| Returned (v : string)
| Rethrown (message : string).

Definition sendToWebhook (fetch : Post -> Fetched) (payload : Payload)
  : Post * Outcome :=
  let post := {| url := webhookUrl payload;
                 post_body := finalPayload payload |} in
  (post,
   match fetch post with
   | Rejected message => Rethrown message
   | Response ok statusText json =>
       if negb ok then Rethrown ("Webhook failed: " ++ statusText)%string
       else match json with
            | Parsed v => Returned v
            | Malformed message => Rethrown message
            end
   end).

End Actions.

End Webhook.

(** * Facts *)

(** ** Lookup by key *)

Lemma value_eqb_eq (a b : Js.value) : Js.value_eqb a b = true <-> a = b.
Proof.
  destruct a as [x|], b as [y|]; simpl; split; intro H;
    try discriminate; try reflexivity.
  - apply String.eqb_eq in H. now subst.
  - injection H as ->. apply String.eqb_refl.
Qed.

Lemma matches_key_of (q : Query) (r : IRecord) :
  matches q r = true <-> key_of r = q.
Proof.
  unfold matches, key_of. destruct q as [qi qc qt]; simpl.
  rewrite !andb_true_iff, !value_eqb_eq. split.
  - intros [[-> ->] ->]. reflexivity.
  - intro H. injection H as -> -> ->. auto.
Qed.

Lemma find_matches_None (q : Query) (st : list IRecord) :
  find (matches q) st = None <-> ~ In q (map key_of st).
Proof.
  split.
  - intros Hnone Hin. apply in_map_iff in Hin as (r & Hk & Hr).
    apply (find_none _ _ Hnone) in Hr.
    apply matches_key_of in Hk. congruence.
  - intro Hnot. destruct (find (matches q) st) as [r|] eqn:E; [|reflexivity].
    apply find_some in E as [Hin Hm]. apply matches_key_of in Hm.
    exfalso. apply Hnot. apply in_map_iff. eauto.
Qed.

Lemma find_matches_Some (q : Query) (st : list IRecord) :
  In q (map key_of st) -> exists r, find (matches q) st = Some r.
Proof.
  intro Hin. destruct (find (matches q) st) as [r|] eqn:E; [eauto|].
  apply find_matches_None in E. contradiction.
Qed.

Lemma run_calls_app (a b : list Event) :
  run_calls (a ++ b) = run_calls a ++ run_calls b.
Proof. apply filter_app. Qed.

(** ** The loops *)

Section LoopFacts.

Variable auth : Js.value.
Variable actionKey : string.
Variable instanceKey : Js.value.
Variable conn : Connection.
Variable normalize : IRecord -> IRecord.

Let each := for_record_of auth.
Let loop := while_hasMoreRecords auth actionKey instanceKey conn normalize.

Let query_for := query_for auth.
Let call := call actionKey instanceKey conn.

Lemma for_record_of_cons (r : IRecord) (rs : list IRecord) w c :
  each (r :: rs) w c
  = match find (matches (query_for r)) (store w) with
    | Some _ => each rs (log (RecordFindOne (query_for r)) w) (bump_existing c)
    | None => each rs (Record_create r (log (RecordFindOne (query_for r)) w))
                   (bump_new c)
    end.
Proof. reflexivity. Qed.

(** The inner loop only appends, and only records it was given. *)
Lemma for_record_of_appends (rs : list IRecord) :
  forall w c, exists added,
    store (fst (each rs w c)) = store w ++ added
    /\ incl added rs
    /\ newRecordsCount (snd (each rs w c))
       = newRecordsCount c + List.length added.
Proof.
  induction rs as [|r rs IH]; intros w c.
  - exists []. simpl. rewrite app_nil_r. repeat split; auto using incl_nil_l.
  - rewrite for_record_of_cons.
    destruct (find (matches (query_for r)) (store w)) as [found|].
    + destruct (IH (log (RecordFindOne (query_for r)) w) (bump_existing c))
        as (added & Hs & Hi & Hn).
      exists added. rewrite Hs, Hn. repeat split; auto using incl_tl.
    + destruct (IH (Record_create r (log (RecordFindOne (query_for r)) w))
                  (bump_new c)) as (added & Hs & Hi & Hn).
      exists (r :: added). rewrite Hs, Hn. simpl. repeat split.
      * now rewrite <- app_assoc.
      * apply incl_cons; [now left | auto using incl_tl].
      * lia.
Qed.

(** Every record of the batch bumps exactly one counter. *)
Lemma for_record_of_counts (rs : list IRecord) :
  forall w c,
    allRecords (snd (each rs w c)) = allRecords c
    /\ newRecordsCount (snd (each rs w c))
       + existingRecordsCount (snd (each rs w c))
       = newRecordsCount c + existingRecordsCount c + List.length rs.
Proof.
  induction rs as [|r rs IH]; intros w c.
  - simpl. split; [reflexivity | lia].
  - rewrite for_record_of_cons.
    destruct (find (matches (query_for r)) (store w)) as [found|];
      match goal with |- context [each rs ?w' ?c'] =>
        destruct (IH w' c') as [Ha Hc] end;
      rewrite Ha, Hc; simpl; split; solve [reflexivity | lia].
Qed.

(** The inner loop calls the store only. *)
Lemma for_record_of_trace (rs : list IRecord) :
  forall w c, exists evs,
    trace (fst (each rs w c)) = trace w ++ evs
    /\ forallb is_store_call evs = true.
Proof.
  induction rs as [|r rs IH]; intros w c.
  - exists []. simpl. now rewrite app_nil_r.
  - rewrite for_record_of_cons.
    destruct (find (matches (query_for r)) (store w)) as [found|];
      match goal with |- context [each rs ?w' ?c'] =>
        destruct (IH w' c') as (evs & Ht & Hs) end;
      rewrite Ht; simpl; rewrite <- ?app_assoc; simpl.
    + exists (RecordFindOne (query_for r) :: evs). split; [reflexivity|].
      simpl. exact Hs.
    + exists (RecordFindOne (query_for r) :: RecordCreate r :: evs).
      split; [reflexivity|]. simpl. exact Hs.
Qed.

(** When every key asked for is already held, nothing is created and every
    record counts as existing. *)
Lemma for_record_of_all_held (rs : list IRecord) :
  forall w c,
    (forall r, In r rs -> In (query_for r) (map key_of (store w))) ->
    store (fst (each rs w c)) = store w
    /\ newRecordsCount (snd (each rs w c)) = newRecordsCount c
    /\ existingRecordsCount (snd (each rs w c))
       = existingRecordsCount c + List.length rs.
Proof.
  induction rs as [|r rs IH]; intros w c Hheld.
  - simpl. repeat split; lia.
  - rewrite for_record_of_cons.
    destruct (find_matches_Some _ _ (Hheld r (or_introl eq_refl)))
      as [found ->].
    destruct (IH (log (RecordFindOne (query_for r)) w) (bump_existing c))
      as (Hs & Hn & He).
    { intros r' Hr'. simpl. apply Hheld. now right. }
    rewrite Hs, Hn, He. simpl. repeat split; lia.
Qed.

Lemma NoDup_snoc (A : Type) (ks : list A) (k : A) :
  ~ In k ks -> NoDup ks -> NoDup (ks ++ [k]).
Proof.
  intros Hk Hnd. apply NoDup_rev in Hnd.
  rewrite <- (rev_involutive (ks ++ [k])). apply NoDup_rev.
  rewrite rev_app_distr. simpl. constructor; [|exact Hnd].
  now rewrite <- in_rev.
Qed.

Hypothesis normalize_customerId : forall r, customerId (normalize r) = auth.

Lemma query_for_normalize (r : IRecord) :
  query_for (normalize r) = key_of (normalize r).
Proof. unfold query_for, key_of. now rewrite normalize_customerId. Qed.

(** After the inner loop the key of every record of the batch is held. *)
Lemma for_record_of_holds (raws : list IRecord) :
  forall w c r,
    In r raws ->
    In (key_of (normalize r))
       (map key_of (store (fst (each (map normalize raws) w c)))).
Proof.
  induction raws as [|x raws IH]; intros w c r Hin; [destruct Hin|].
  change (map normalize (x :: raws)) with (normalize x :: map normalize raws).
  rewrite for_record_of_cons.
  destruct (find (matches (query_for (normalize x))) (store w))
    as [found|] eqn:E;
    (destruct Hin as [<- | Hin]; [|now apply IH]);
    match goal with |- context [each ?l ?w' ?c'] =>
      destruct (for_record_of_appends l w' c') as (added & Hs & _) end;
    rewrite Hs; simpl; rewrite !map_app; apply in_or_app; left.
  - apply in_map_iff. apply find_some in E as [Hf Hm].
    apply matches_key_of in Hm. rewrite <- query_for_normalize. eauto.
  - apply in_or_app. right. now left.
Qed.

(** The inner loop keeps the keys of the collection pairwise distinct. *)
Lemma for_record_of_NoDup (raws : list IRecord) :
  forall w c,
    NoDup (map key_of (store w)) ->
    NoDup (map key_of (store (fst (each (map normalize raws) w c)))).
Proof.
  induction raws as [|x raws IH]; intros w c Hnd; [exact Hnd|].
  change (map normalize (x :: raws)) with (normalize x :: map normalize raws).
  rewrite for_record_of_cons.
  destruct (find (matches (query_for (normalize x))) (store w))
    as [found|] eqn:E; apply IH; [exact Hnd|].
  simpl. rewrite map_app. simpl. apply NoDup_snoc; [|exact Hnd].
  apply find_matches_None in E. now rewrite query_for_normalize in E.
Qed.

(** *** One page *)

Let batch := save_batch auth normalize.

Lemma save_batch_eq (records : list IRecord) w c :
  batch records w c
  = each (map normalize records) w
      {| allRecords := allRecords c ++ records;
         newRecordsCount := newRecordsCount c;
         existingRecordsCount := existingRecordsCount c |}.
Proof.
  unfold batch, save_batch. destruct records; reflexivity.
Qed.

Lemma save_batch_appends (records : list IRecord) w c :
  exists added,
    store (fst (batch records w c)) = store w ++ added
    /\ incl added (map normalize records).
Proof.
  rewrite save_batch_eq.
  destruct (for_record_of_appends (map normalize records) w
              {| allRecords := allRecords c ++ records;
                 newRecordsCount := newRecordsCount c;
                 existingRecordsCount := existingRecordsCount c |})
    as (added & Hs & Hi & _).
  eauto.
Qed.

Lemma save_batch_counts (records : list IRecord) w c :
  allRecords (snd (batch records w c)) = allRecords c ++ records
  /\ newRecordsCount (snd (batch records w c))
     + existingRecordsCount (snd (batch records w c))
     = newRecordsCount c + existingRecordsCount c + List.length records.
Proof.
  rewrite save_batch_eq.
  match goal with |- context [each ?l ?w' ?c'] =>
    destruct (for_record_of_counts l w' c') as [Ha Hc] end.
  rewrite Ha, Hc, length_map. simpl. auto.
Qed.

Lemma save_batch_trace (records : list IRecord) w c :
  exists evs,
    trace (fst (batch records w c)) = trace w ++ evs
    /\ forallb is_store_call evs = true.
Proof. rewrite save_batch_eq. apply for_record_of_trace. Qed.

Lemma save_batch_run_calls (records : list IRecord) w c :
  run_calls (trace (fst (batch records w c))) = run_calls (trace w).
Proof.
  destruct (save_batch_trace records w c) as (evs & -> & Hs).
  rewrite run_calls_app.
  replace (run_calls evs) with (@nil Event); [apply app_nil_r|].
  clear -Hs. induction evs as [|e evs IH]; [reflexivity|].
  simpl in *. apply andb_true_iff in Hs as [He Hs].
  destruct e; try discriminate; simpl; auto.
Qed.

Lemma save_batch_all_held (records : list IRecord) w c :
  (forall r, In r records ->
             In (key_of (normalize r)) (map key_of (store w))) ->
  store (fst (batch records w c)) = store w
  /\ allRecords (snd (batch records w c)) = allRecords c ++ records
  /\ newRecordsCount (snd (batch records w c)) = newRecordsCount c
  /\ existingRecordsCount (snd (batch records w c))
     = existingRecordsCount c + List.length records.
Proof.
  intro Hheld. destruct (save_batch_counts records w c) as [Ha _].
  split; [|split; [exact Ha|]]; rewrite save_batch_eq;
    match goal with |- context [each ?l ?w' ?c'] =>
      destruct (for_record_of_all_held l w' c') as (Hs & Hn & He) end;
    try (intros r' Hr'; apply in_map_iff in Hr' as (x & <- & Hx);
         rewrite query_for_normalize; auto);
    rewrite ?Hs, ?Hn, ?He, ?length_map; auto.
Qed.

Lemma save_batch_holds (records : list IRecord) w c r :
  In r records ->
  In (key_of (normalize r)) (map key_of (store (fst (batch records w c)))).
Proof. rewrite save_batch_eq. apply for_record_of_holds. Qed.

Lemma save_batch_NoDup (records : list IRecord) w c :
  NoDup (map key_of (store w)) ->
  NoDup (map key_of (store (fst (batch records w c)))).
Proof. rewrite save_batch_eq. apply for_record_of_NoDup. Qed.

(** *** The pagination loop *)

Lemma loop_nil cur w c : loop [] cur w c = (Unscripted, log (call cur) w).
Proof. reflexivity. Qed.

Lemma loop_Throws message script cur w c :
  loop (Throws message :: script) cur w c = (Thrown message, log (call cur) w).
Proof. reflexivity. Qed.

Lemma loop_Output recs cursor script cur w c :
  loop (Output recs cursor :: script) cur w c
  = if Js.truthy cursor
    then loop script cursor
           (fst (batch (records_of recs) (log (call cur) w) c))
           (snd (batch (records_of recs) (log (call cur) w) c))
    else (Normal (snd (batch (records_of recs) (log (call cur) w) c)),
          fst (batch (records_of recs) (log (call cur) w) c)).
Proof.
  unfold loop, batch, call. simpl.
  destruct (save_batch auth normalize _ _ c). reflexivity.
Qed.

(** The loop only appends to the collection, and only normalized records. *)
Lemma loop_appends (script : list RunResult) :
  forall cur w c, exists added,
    store (snd (loop script cur w c)) = store w ++ added
    /\ forall r, In r added -> exists x, r = normalize x.
Proof.
  induction script as [|[recs cursor|message] script IH]; intros cur w c.
  - exists []. rewrite loop_nil. simpl. rewrite app_nil_r. now split.
  - rewrite loop_Output.
    destruct (save_batch_appends (records_of recs) (log (call cur) w) c)
      as (a1 & Hs1 & Hi1).
    assert (Hn1 : forall r, In r a1 -> exists x, r = normalize x).
    { intros r Hr. apply Hi1, in_map_iff in Hr as (x & <- & _). eauto. }
    destruct (Js.truthy cursor).
    + destruct (IH cursor (fst (batch (records_of recs) (log (call cur) w) c))
                  (snd (batch (records_of recs) (log (call cur) w) c)))
        as (a2 & Hs2 & Hn2).
      exists (a1 ++ a2). rewrite Hs2, Hs1. simpl. rewrite app_assoc.
      split; [reflexivity|]. intros r Hr.
      apply in_app_or in Hr as [Hr|Hr]; auto.
    + exists a1. simpl. rewrite Hs1. simpl. auto.
  - exists []. rewrite loop_Throws. simpl. rewrite app_nil_r. now split.
Qed.

Lemma loop_NoDup (script : list RunResult) :
  forall cur w c,
    NoDup (map key_of (store w)) ->
    NoDup (map key_of (store (snd (loop script cur w c)))).
Proof.
  induction script as [|[recs cursor|message] script IH]; intros cur w c Hnd.
  - exact Hnd.
  - rewrite loop_Output.
    pose proof (save_batch_NoDup (records_of recs) (log (call cur) w) c Hnd).
    destruct (Js.truthy cursor); [now apply IH | assumption].
  - exact Hnd.
Qed.

(** A normal end reports every record read, each counted once. *)
Lemma loop_counts (script : list RunResult) :
  forall cur w c c',
    fst (loop script cur w c) = Normal c' ->
    allRecords c' = allRecords c ++ observed script
    /\ newRecordsCount c' + existingRecordsCount c'
       = newRecordsCount c + existingRecordsCount c
         + List.length (observed script).
Proof.
  induction script as [|[recs cursor|message] script IH];
    intros cur w c c' Hn.
  - discriminate.
  - rewrite loop_Output in Hn. simpl observed.
    destruct (save_batch_counts (records_of recs) (log (call cur) w) c)
      as [Ha Hc].
    destruct (Js.truthy cursor).
    + apply IH in Hn as [Ha' Hc']. rewrite Ha', Hc', Ha, Hc.
      rewrite length_app, <- app_assoc. split; [reflexivity | lia].
    + simpl in Hn. injection Hn as <-. rewrite Ha, Hc, app_nil_r. auto.
  - discriminate.
Qed.

(** The loop ends normally exactly on the scripts that complete. *)
Lemma loop_Normal_iff (script : list RunResult) :
  forall cur w c,
    (exists c', fst (loop script cur w c) = Normal c')
    <-> completes script = true.
Proof.
  induction script as [|[recs cursor|message] script IH]; intros cur w c.
  - rewrite loop_nil. simpl. split; [intros [c' H]|intro H]; discriminate.
  - rewrite loop_Output. simpl completes.
    destruct (Js.truthy cursor); [apply IH|].
    simpl. split; eauto.
  - rewrite loop_Throws. simpl. split; [intros [c' H]|intro H]; discriminate.
Qed.

(** The calls to the action are exactly those of [cursors_sent]. *)
Lemma loop_run_calls (script : list RunResult) :
  forall cur w c,
    run_calls (trace (snd (loop script cur w c)))
    = run_calls (trace w) ++ map call (cursors_sent script cur).
Proof.
  induction script as [|[recs cursor|message] script IH]; intros cur w c.
  - rewrite loop_nil. simpl. now rewrite run_calls_app.
  - rewrite loop_Output. simpl cursors_sent.
    pose proof (save_batch_run_calls (records_of recs) (log (call cur) w) c)
      as Hb.
    simpl trace in Hb. rewrite run_calls_app in Hb. simpl in Hb.
    destruct (Js.truthy cursor).
    + rewrite IH, Hb. simpl. now rewrite <- app_assoc.
    + simpl. rewrite Hb. reflexivity.
  - rewrite loop_Throws. simpl. now rewrite run_calls_app.
Qed.

(** After the loop the key of every record read is held. *)
Lemma loop_holds (script : list RunResult) :
  forall cur w c r,
    In r (observed script) ->
    In (key_of (normalize r))
       (map key_of (store (snd (loop script cur w c)))).
Proof.
  induction script as [|[recs cursor|message] script IH];
    intros cur w c r Hin; try destruct Hin.
  rewrite loop_Output. simpl in Hin.
  pose proof (fun H => save_batch_holds (records_of recs)
                         (log (call cur) w) c r H) as Hb.
  destruct (Js.truthy cursor).
  - apply in_app_or in Hin as [Hin|Hin]; [|now apply IH].
    match goal with |- context [loop script cursor ?w' ?c'] =>
      destruct (loop_appends script cursor w' c') as (added & -> & _) end.
    rewrite map_app. apply in_or_app. left. auto.
  - rewrite app_nil_r in Hin. simpl. auto.
Qed.

(** On a collection that already holds every key the loop will ask for,
    nothing is created and every record read counts as existing. *)
Lemma loop_all_held (script : list RunResult) :
  forall cur w c,
    completes script = true ->
    (forall r, In r (observed script) ->
               In (key_of (normalize r)) (map key_of (store w))) ->
    store (snd (loop script cur w c)) = store w
    /\ fst (loop script cur w c)
       = Normal {| allRecords := allRecords c ++ observed script;
                   newRecordsCount := newRecordsCount c;
                   existingRecordsCount :=
                     existingRecordsCount c
                     + List.length (observed script) |}.
Proof.
  induction script as [|[recs cursor|message] script IH];
    intros cur w c Hc Hheld; try discriminate.
  rewrite loop_Output. simpl in Hc, Hheld. simpl observed.
  destruct (save_batch_all_held (records_of recs) (log (call cur) w) c)
    as (Hs & Ha & Hn & He).
  { intros r Hr. simpl. apply Hheld. apply in_or_app. now left. }
  destruct (Js.truthy cursor).
  - match goal with |- context [loop script cursor ?w' ?c'] =>
      destruct (IH cursor w' c' Hc) as [Hs' Hf'] end.
    { intros r Hr. rewrite Hs. simpl. apply Hheld. apply in_or_app.
      now right. }
    rewrite Hs', Hf', Hs, Ha, Hn, He. simpl. split; [reflexivity|].
    f_equal. f_equal; [now rewrite app_assoc | rewrite length_app; lia].
  - simpl. rewrite Hs. split; [reflexivity|]. f_equal.
    destruct (snd (batch (records_of recs) (log (call cur) w) c)).
    simpl in *. subst. now rewrite !app_nil_r.
Qed.

(** *** Only absent keys are inserted *)

Lemma for_record_of_fresh (raws : list IRecord) :
  forall w c, exists added,
    store (fst (each (map normalize raws) w c)) = store w ++ added
    /\ forall r, In r added -> ~ In (key_of r) (map key_of (store w)).
Proof.
  induction raws as [|x raws IH]; intros w c.
  - exists []. simpl. rewrite app_nil_r. now split.
  - change (map normalize (x :: raws))
      with (normalize x :: map normalize raws).
    rewrite for_record_of_cons.
    destruct (find (matches (query_for (normalize x))) (store w))
      as [found|] eqn:E;
      match goal with |- context [each ?l ?w' ?c'] =>
        destruct (IH w' c') as (added & Hs & Hf) end; rewrite Hs.
    + exists added. split; [reflexivity | exact Hf].
    + exists (normalize x :: added). simpl. rewrite <- app_assoc.
      split; [reflexivity|]. intros r [<- | Hr].
      * apply find_matches_None in E. now rewrite query_for_normalize in E.
      * intro Hin. apply (Hf r Hr). simpl. rewrite map_app.
        apply in_or_app. now left.
Qed.

Lemma loop_fresh (script : list RunResult) :
  forall cur w c, exists added,
    store (snd (loop script cur w c)) = store w ++ added
    /\ forall r, In r added -> ~ In (key_of r) (map key_of (store w)).
Proof.
  induction script as [|[recs cursor|message] script IH]; intros cur w c.
  - exists []. rewrite loop_nil. simpl. rewrite app_nil_r. now split.
  - rewrite loop_Output.
    destruct (for_record_of_fresh (records_of recs) (log (call cur) w)
                {| allRecords := allRecords c ++ records_of recs;
                   newRecordsCount := newRecordsCount c;
                   existingRecordsCount := existingRecordsCount c |})
      as (a1 & Hs1 & Hf1).
    rewrite <- save_batch_eq in Hs1. simpl in Hs1.
    destruct (Js.truthy cursor).
    + match goal with |- context [loop script cursor ?w' ?c'] =>
        destruct (IH cursor w' c') as (a2 & Hs2 & Hf2) end.
      exists (a1 ++ a2). rewrite Hs2, Hs1, app_assoc.
      split; [reflexivity|]. intros r Hr.
      apply in_app_or in Hr as [Hr|Hr]; [now apply Hf1|].
      intro Hin. apply (Hf2 r Hr). rewrite Hs1, map_app.
      apply in_or_app. now left.
    + exists a1. simpl. rewrite Hs1. auto.
  - exists []. rewrite loop_Throws. simpl. rewrite app_nil_r. now split.
Qed.

End LoopFacts.

(** ** The handlers *)

Lemma toSave_customerId route auth actionKey instanceKey r :
  customerId (toSave route auth actionKey instanceKey r) = auth.
Proof. destruct route; reflexivity. Qed.

Lemma toSave_recordType route auth actionKey instanceKey r :
  recordType (toSave route auth actionKey instanceKey r)
  = stamp route actionKey instanceKey.
Proof. destruct route; reflexivity. Qed.

(** A request that passes the guards reaches the connection lookup, and
    with a connection the loop. *)
Lemma GET_accepted route ext request w actionKey :
  accepted route request actionKey ->
  GET route ext request w
  = match firstConnection ext with
    | None => (Some (json (FailureBody false "No connection found") None),
               connected_world (auth_customerId request) w)
    | Some conn => respond route (pages route ext request actionKey conn w)
    end.
Proof.
  intros (Hauth & Hact & Hne & Hik).
  assert (Hk : Js.truthy (Some actionKey) = true).
  { simpl. apply negb_true_iff, String.eqb_neq. exact Hne. }
  assert (Hg : isCustom route actionKey
               && negb (Js.truthy (searchParams_instanceKey request)) = false).
  { destruct (isCustom route actionKey); [|reflexivity].
    rewrite Hik; reflexivity. }
  unfold pages, respond, firstConnection, connected_world.
  destruct route; unfold GET, Part000.GET, Part001.GET;
    rewrite Hauth, Hact, Hk; simpl negb; cbv iota; simpl in Hg; rewrite Hg;
    destruct (items ext) as [[|conn l]|]; simpl hd_error; cbv iota;
    try reflexivity;
    match goal with |- context [while_hasMoreRecords ?a ?b ?c ?d ?e ?f ?g ?h ?i] =>
      destruct (while_hasMoreRecords a b c d e f g h i) as [[cs|m|] w'] end;
    reflexivity.
Qed.

(** A request that does not pass the guards is answered with 401 or 400 and
    leaves the world as it was. *)
Lemma GET_rejected route ext request w :
  (forall actionKey, ~ accepted route request actionKey) ->
  exists error code,
    GET route ext request w = (Some (json (ErrorBody error None) (Some code)), w)
    /\ (code = 401 \/ code = 400).
Proof.
  intro Hrej.
  destruct (Js.truthy (auth_customerId request)) eqn:Hauth.
  2:{ exists "Unauthorized", 401.
      destruct route; unfold GET, Part000.GET, Part001.GET; rewrite Hauth;
        simpl; auto. }
  destruct (searchParams_action request) as [actionKey|] eqn:Hact.
  2:{ exists "Action key is required", 400.
      destruct route; unfold GET, Part000.GET, Part001.GET;
        rewrite Hauth, Hact; simpl; auto. }
  destruct (Js.truthy (Some actionKey)) eqn:Hk.
  2:{ exists "Action key is required", 400.
      destruct route; unfold GET, Part000.GET, Part001.GET;
        rewrite Hauth, Hact, Hk; simpl; auto. }
  destruct (isCustom route actionKey
            && negb (Js.truthy (searchParams_instanceKey request))) eqn:Hg.
  - destruct route; simpl in Hg;
      [exists "Instance key is required for custom forms", 400
      |exists "Instance key is required for get-objects action", 400];
      unfold GET, Part000.GET, Part001.GET; rewrite Hauth, Hact, Hk;
      simpl negb; cbv iota; rewrite Hg; auto.
  - exfalso. apply (Hrej actionKey). repeat split; auto.
    + simpl in Hk. apply negb_true_iff, String.eqb_neq in Hk. exact Hk.
    + intro Hc. rewrite Hc in Hg. simpl in Hg.
      now apply negb_false_iff in Hg.
Qed.

Lemma accepted_dec route request :
  (exists actionKey, accepted route request actionKey)
  \/ (forall actionKey, ~ accepted route request actionKey).
Proof.
  destruct (Js.truthy (auth_customerId request)) eqn:Hauth.
  2:{ right. intros a (H & _). congruence. }
  destruct (searchParams_action request) as [actionKey|] eqn:Hact.
  2:{ right. intros a (_ & H & _). congruence. }
  destruct (String.eqb_spec actionKey "") as [He|Hne].
  { right. intros a (_ & H & Hn & _). congruence. }
  destruct (isCustom route actionKey) eqn:Hc.
  - destruct (Js.truthy (searchParams_instanceKey request)) eqn:Hik.
    + left. exists actionKey. repeat split; auto.
    + right. intros a (_ & H & _ & Hi).
      assert (a = actionKey) by congruence. subst a.
      specialize (Hi Hc). congruence.
  - left. exists actionKey. repeat split; auto. congruence.
Qed.

Lemma snd_respond route p : snd (respond route p) = snd p.
Proof. destruct p as [[c|m|] w]; reflexivity. Qed.

(** What a run leaves in the collection: the old records, then records the
    handler built with [toSave], none under a key that was already held. *)
Lemma GET_appends route ext request w :
  exists added,
    store (snd (GET route ext request w)) = store w ++ added
    /\ (forall r, In r added -> ~ In (key_of r) (map key_of (store w)))
    /\ (forall r, In r added ->
        exists actionKey x,
          searchParams_action request = Some actionKey
          /\ r = toSave route (auth_customerId request) actionKey
                  (searchParams_instanceKey request) x).
Proof.
  destruct (accepted_dec route request) as [[actionKey Hacc]|Hrej].
  - rewrite (GET_accepted ext w Hacc).
    destruct (firstConnection ext) as [conn|].
    + rewrite snd_respond. unfold pages.
      set (norm := toSave route _ _ _).
      match goal with |- context [while_hasMoreRecords ?a ?b ?c ?d ?e ?f ?g ?h ?i] =>
        destruct (loop_appends a b c d e f g h i) as (a1 & Hs1 & Hn1);
        destruct (@loop_fresh a b c d e
                    (toSave_customerId route a b c) f g h i)
          as (a2 & Hs2 & Hf2) end.
      fold norm in Hs2. rewrite Hs1 in Hs2. apply app_inv_head in Hs2.
      subst a2. exists a1. simpl in *. repeat split; auto.
      intros r Hr. destruct (Hn1 r Hr) as [x ->].
      exists actionKey, x. split; [apply Hacc | reflexivity].
    + exists []. simpl. rewrite app_nil_r. repeat split; intros r [].
  - destruct (GET_rejected ext w Hrej) as (error & code & -> & _).
    exists []. simpl. rewrite app_nil_r. repeat split; intros r [].
Qed.

Lemma store_imported route ext request w :
  store (snd (GET route ext request w))
  = store w ++ imported route ext request w.
Proof.
  destruct (GET_appends route ext request w) as (added & Hs & _).
  unfold imported. rewrite Hs. f_equal.
  rewrite skipn_app, skipn_all, Nat.sub_diag. reflexivity.
Qed.

Lemma imported_inv route ext request w r :
  In r (imported route ext request w) ->
  ~ In (key_of r) (map key_of (store w))
  /\ exists actionKey x,
       searchParams_action request = Some actionKey
       /\ r = toSave route (auth_customerId request) actionKey
               (searchParams_instanceKey request) x.
Proof.
  destruct (GET_appends route ext request w) as (added & Hs & Hf & Hn).
  rewrite store_imported in Hs. apply app_inv_head in Hs. subst added.
  auto.
Qed.

(** * The claims *)

(** C2 — key uniqueness is preserved: when the triples (id, customerId,
    recordType) of the collection are pairwise distinct before a run of
    either handler, they are pairwise distinct after it, whatever the pages
    held and however the run ended. *)
Theorem import_preserves_key_uniqueness route ext request w :
  NoDup (map key_of (store w)) ->
  NoDup (map key_of (store (snd (GET route ext request w)))).
Proof.
  intro Hnd.
  destruct (accepted_dec route request) as [[actionKey Hacc]|Hrej].
  - rewrite (GET_accepted ext w Hacc).
    destruct (firstConnection ext) as [conn|]; [|exact Hnd].
    rewrite snd_respond. unfold pages.
    apply loop_NoDup; [apply toSave_customerId | exact Hnd].
  - destruct (GET_rejected ext w Hrej) as (error & code & -> & _).
    exact Hnd.
Qed.

Lemma import_preserves_key_uniqueness_witness :
  NoDup (map key_of
           (store (snd (GET part_000 (Sample.connected Sample.two_pages)
                          (Sample.request (Some "get-equipment") None)
                          (snd (GET part_000 (Sample.connected Sample.two_pages)
                                  (Sample.request (Some "get-equipment") None)
                                  Sample.empty)))))).
Proof.
  apply import_preserves_key_uniqueness.
  apply import_preserves_key_uniqueness.
  simpl. constructor.
Defined.

(** C8 — insert-only frame condition: after a run the collection is the
    collection before the run, record for record, followed by the records
    the run created; and every created record has a key that the
    collection did not hold before the run. *)
Theorem import_only_inserts route ext request w :
  store (snd (GET route ext request w))
  = store w ++ imported route ext request w
  /\ forall r, In r (imported route ext request w) ->
               ~ In (key_of r) (map key_of (store w)).
Proof.
  split; [apply store_imported|].
  intros r Hr. now apply imported_inv in Hr.
Qed.

Lemma import_only_inserts_witness :
  store (snd (GET part_000 (Sample.connected Sample.two_pages)
                (Sample.request (Some "get-equipment") None)
                {| store := [ {| id := Some "e2"; name := Some "Lathe";
                                 fields := [("site", "north")];
                                 customerId := Some "customer-1";
                                 recordType := Some "get-equipment" |} ];
                   trace := [] |}))
  = [ {| id := Some "e2"; name := Some "Lathe"; fields := [("site", "north")];
         customerId := Some "customer-1";
         recordType := Some "get-equipment" |};
      {| id := Some "e1"; name := Some "Drill"; fields := [];
         customerId := Some "customer-1";
         recordType := Some "get-equipment" |};
      {| id := Some "e3"; name := Some "Saw"; fields := [];
         customerId := Some "customer-1";
         recordType := Some "get-equipment" |} ].
Proof.
  rewrite (proj1 (import_only_inserts part_000
                    (Sample.connected Sample.two_pages)
                    (Sample.request (Some "get-equipment") None) _)).
  reflexivity.
Defined.

(** C9 — the counters of a summary add up: in every response with a
    summary body, recordsCount = newRecordsCount + existingRecordsCount. *)
Theorem summary_counters_add_up route ext request w st b rc n e w' :
  GET route ext request w
  = (Some {| status := st; body := SummaryBody b rc n e |}, w') ->
  rc = n + e.
Proof.
  destruct (accepted_dec route request) as [[actionKey Hacc]|Hrej].
  - rewrite (GET_accepted ext w Hacc).
    destruct (firstConnection ext) as [conn|]; [|discriminate].
    unfold pages.
    match goal with |- context [while_hasMoreRecords ?a ?b ?c ?d ?e ?f ?g ?h ?i] =>
      pose proof (@loop_counts a b c d e f g h i) as Hc;
      destruct (while_hasMoreRecords a b c d e f g h i) as [[cs|m|] w1] end;
      simpl; intro H; try discriminate.
    injection H as _ _ <- <- <- _.
    destruct (Hc cs eq_refl) as [Ha Hn]. rewrite Ha. simpl in *. lia.
  - destruct (GET_rejected ext w Hrej) as (error & code & -> & _).
    discriminate.
Qed.

Lemma summary_counters_add_up_witness :
  fst (GET part_000 (Sample.connected Sample.two_pages)
         (Sample.request (Some "get-equipment") None) Sample.empty)
  = Some {| status := 200; body := SummaryBody true 3 3 0 |}
  /\ 3 = 3 + 0.
Proof.
  split; [reflexivity|].
  apply (@summary_counters_add_up part_000
           (Sample.connected Sample.two_pages)
           (Sample.request (Some "get-equipment") None)
           Sample.empty 200 true 3 3 0
           (snd (GET part_000 (Sample.connected Sample.two_pages)
                   (Sample.request (Some "get-equipment") None)
                   Sample.empty))).
  reflexivity.
Defined.

Lemma imported_recordType route ext request w actionKey r :
  searchParams_action request = Some actionKey ->
  In r (imported route ext request w) ->
  recordType r = stamp route actionKey (searchParams_instanceKey request).
Proof.
  intros Hact Hr. apply imported_inv in Hr as (_ & a & x & Ha & ->).
  assert (a = actionKey) by congruence. subst a.
  apply toSave_recordType.
Qed.

(** C3, as the handlers do it — every record a run creates carries as
    recordType the instance key when the handler treats the action as
    custom, and otherwise the action key itself, prefix included
    ("get-equipment" for the action "get-equipment"). *)
Theorem recordType_stamp route ext request w actionKey r :
  searchParams_action request = Some actionKey ->
  In r (imported route ext request w) ->
  recordType r
  = if isCustom route actionKey then searchParams_instanceKey request
    else Some actionKey.
Proof.
  intros Hact Hr. apply imported_inv in Hr as (_ & a & x & Ha & ->).
  rewrite Hact in Ha. injection Ha as <-.
  destruct route; reflexivity.
Qed.

Lemma recordType_stamp_witness :
  recordType {| id := Some "e1"; name := Some "Drill"; fields := [];
                customerId := Some "customer-1";
                recordType := Some "get-equipment" |}
  = if isCustom part_000 "get-equipment" then None else Some "get-equipment".
Proof.
  apply (@recordType_stamp part_000 (Sample.connected Sample.two_pages)
           (Sample.request (Some "get-equipment") None) Sample.empty
           "get-equipment").
  - reflexivity.
  - vm_compute. left. reflexivity.
Defined.

(** C3, as the spec words it, fails: the default action "get-equipment",
    whose logical type is "equipment", stamps "get-equipment". *)
Lemma recordType_is_not_the_logical_type :
  isCustom part_000 "get-equipment" = false
  /\ logical_type "get-equipment" = "equipment"
  /\ ~ (forall r,
         In r (imported part_000 (Sample.connected Sample.two_pages)
                 (Sample.request (Some "get-equipment") None) Sample.empty) ->
         recordType r = stamp_as_specified part_000 "get-equipment" None).
Proof.
  split; [reflexivity|]. split; [reflexivity|].
  intro H.
  specialize (H {| id := Some "e1"; name := Some "Drill"; fields := [];
                   customerId := Some "customer-1";
                   recordType := Some "get-equipment" |}).
  assert (Hin : In {| id := Some "e1"; name := Some "Drill"; fields := [];
                      customerId := Some "customer-1";
                      recordType := Some "get-equipment" |}
                   (imported part_000 (Sample.connected Sample.two_pages)
                      (Sample.request (Some "get-equipment") None)
                      Sample.empty)).
  { vm_compute. left. reflexivity. }
  apply H in Hin. vm_compute in Hin. discriminate.
Qed.

(** C1 — repeated import is idempotent: when a run of either handler ends
    with a summary of [rc] records, a second run of the same request
    against the same connections and the same pages, on the collection the
    first run left, ends with the summary recordsCount = [rc],
    newRecordsCount = 0, existingRecordsCount = [rc], and creates nothing. *)
Theorem reimport_is_idempotent route ext request w rc n e w1 :
  GET route ext request w = (Some (summary rc n e), w1) ->
  exists w2,
    GET route ext request w1 = (Some (summary rc 0 rc), w2)
    /\ store w2 = store w1.
Proof.
  destruct (accepted_dec route request) as [[actionKey Hacc]|Hrej].
  2:{ destruct (GET_rejected ext w Hrej) as (error & code & -> & _).
      discriminate. }
  rewrite (GET_accepted ext w Hacc), (GET_accepted ext w1 Hacc).
  destruct (firstConnection ext) as [conn|]; [|discriminate].
  unfold pages.
  set (auth := auth_customerId request).
  set (ik := searchParams_instanceKey request).
  set (norm := toSave route auth actionKey ik).
  pose proof (toSave_customerId route auth actionKey ik) as Hnorm.
  fold norm in Hnorm.
  pose proof (@loop_counts auth actionKey ik conn norm (responses ext) None
                (connected_world auth w) init) as Hcount.
  pose proof (@loop_Normal_iff auth actionKey ik conn norm (responses ext) None
                (connected_world auth w) init) as Hcompl.
  pose proof (@loop_holds auth actionKey ik conn norm Hnorm (responses ext)
                None (connected_world auth w) init) as Hheld.
  destruct (while_hasMoreRecords auth actionKey ik conn norm (responses ext)
              None (connected_world auth w) init) as [[c|m|] w1'] eqn:Hrun;
    simpl; intro H; try discriminate.
  injection H as <- _ _ <-. simpl in *.
  destruct (Hcount c eq_refl) as [Hall _].
  assert (Hc : completes (responses ext) = true) by (apply Hcompl; eauto).
  destruct (@loop_all_held auth actionKey ik conn norm Hnorm (responses ext)
              None (connected_world auth w1') init Hc) as [Hs Hf].
  { exact Hheld. }
  destruct (while_hasMoreRecords auth actionKey ik conn norm (responses ext)
              None (connected_world auth w1') init) as [c2 w2].
  simpl in Hs, Hf. subst c2. exists w2. simpl. rewrite Hall. simpl.
  split; [reflexivity | exact Hs].
Qed.

Lemma reimport_is_idempotent_witness :
  GET part_000 (Sample.connected Sample.two_pages)
      (Sample.request (Some "get-equipment") None) Sample.empty
  = (Some (summary 3 3 0),
     snd (GET part_000 (Sample.connected Sample.two_pages)
            (Sample.request (Some "get-equipment") None) Sample.empty))
  /\ exists w2,
       GET part_000 (Sample.connected Sample.two_pages)
           (Sample.request (Some "get-equipment") None)
           (snd (GET part_000 (Sample.connected Sample.two_pages)
                   (Sample.request (Some "get-equipment") None) Sample.empty))
       = (Some (summary 3 0 3), w2)
       /\ store w2
          = store (snd (GET part_000 (Sample.connected Sample.two_pages)
                          (Sample.request (Some "get-equipment") None)
                          Sample.empty)).
Proof.
  split; [reflexivity|].
  apply (@reimport_is_idempotent part_000 (Sample.connected Sample.two_pages)
           (Sample.request (Some "get-equipment") None) Sample.empty 3 3 0).
  reflexivity.
Defined.

Lemma run_calls_connected_world auth w :
  run_calls (trace (connected_world auth w)) = run_calls (trace w).
Proof.
  unfold connected_world. simpl. rewrite !run_calls_app. simpl.
  now rewrite !app_nil_r.
Qed.

(** C4 — pagination is driven only by the cursor: when the first four
    answers of the action are pages with cursors [c1], [c2], [c3] (non-empty)
    and then an empty cursor, an accepted request with a connection ends
    with a summary whose recordsCount is the sum of the four page sizes, and
    the run makes exactly four calls to the action: with no cursor, then
    with [c1], [c2] and [c3].  The pages are arbitrary, empty ones included. *)
Theorem four_pages_four_calls route ext request w actionKey conn
    p1 p2 p3 p4 c1 c2 c3 c4 rest :
  accepted route request actionKey ->
  firstConnection ext = Some conn ->
  responses ext
  = Output p1 c1 :: Output p2 c2 :: Output p3 c3 :: Output p4 c4 :: rest ->
  Js.truthy c1 = true -> Js.truthy c2 = true -> Js.truthy c3 = true ->
  Js.truthy c4 = false ->
  exists n e w',
    GET route ext request w
    = (Some (summary (List.length (records_of p1) + List.length (records_of p2)
                      + List.length (records_of p3)
                      + List.length (records_of p4)) n e), w')
    /\ run_calls (trace w')
       = run_calls (trace w)
         ++ map (call actionKey (searchParams_instanceKey request) conn)
                [None; c1; c2; c3].
Proof.
  intros Hacc Hconn Hresp H1 H2 H3 H4.
  rewrite (GET_accepted ext w Hacc), Hconn. unfold pages.
  set (auth := auth_customerId request).
  set (ik := searchParams_instanceKey request).
  set (norm := toSave route auth actionKey ik).
  assert (Hc : completes (responses ext) = true).
  { rewrite Hresp. simpl. now rewrite H1, H2, H3, H4. }
  assert (Hobs : observed (responses ext)
                 = records_of p1 ++ records_of p2 ++ records_of p3
                   ++ records_of p4).
  { rewrite Hresp. simpl. rewrite H1, H2, H3, H4. now rewrite app_nil_r. }
  assert (Hsent : cursors_sent (responses ext) None = [None; c1; c2; c3]).
  { rewrite Hresp. simpl. now rewrite H1, H2, H3, H4. }
  pose proof (@loop_counts auth actionKey ik conn norm (responses ext) None
                (connected_world auth w) init) as Hcount.
  pose proof (@loop_run_calls auth actionKey ik conn norm (responses ext) None
                (connected_world auth w) init) as Hcalls.
  apply (@loop_Normal_iff auth actionKey ik conn norm (responses ext) None
           (connected_world auth w) init) in Hc as [c Hn].
  destruct (while_hasMoreRecords auth actionKey ik conn norm (responses ext)
              None (connected_world auth w) init) as [c' w'].
  cbn [fst snd] in Hn, Hcalls. subst c'.
  destruct (Hcount c eq_refl) as [Hall _].
  exists (newRecordsCount c), (existingRecordsCount c), w'. simpl. split.
  - unfold summary. rewrite Hall, Hobs. simpl. rewrite !length_app.
    do 4 f_equal. lia.
  - rewrite Hcalls, run_calls_connected_world, Hsent. reflexivity.
Qed.

Lemma four_pages_four_calls_witness :
  exists n e w',
    GET part_000
        (Sample.connected
           [ Output (Some [Sample.raw (Some "e1") None]) (Some "c1");
             Output (Some []) (Some "c2");
             Output None (Some "c3");
             Output (Some [Sample.raw (Some "e2") None]) (Some "");
             Output (Some [Sample.raw (Some "e3") None]) None ])
        (Sample.request (Some "get-objects") (Some "projects")) Sample.empty
    = (Some (summary (1 + 0 + 0 + 1) n e), w')
    /\ run_calls (trace w')
       = run_calls (trace Sample.empty)
         ++ map (call "get-objects" (Some "projects")
                   {| connection_id := "conn-1" |})
                [None; Some "c1"; Some "c2"; Some "c3"].
Proof.
  apply (@four_pages_four_calls part_000 _
           (Sample.request (Some "get-objects") (Some "projects"))
           Sample.empty "get-objects" {| connection_id := "conn-1" |}
           (Some [Sample.raw (Some "e1") None]) (Some []) None
           (Some [Sample.raw (Some "e2") None])
           (Some "c1") (Some "c2") (Some "c3") (Some "")
           [Output (Some [Sample.raw (Some "e3") None]) None]);
    try reflexivity.
  repeat split; try reflexivity. discriminate.
Defined.

(** C5 — missing instance key on a custom action: an authenticated request
    whose action the handler treats as custom and whose instance key is
    missing (or empty) is answered with status 400, and the world is left
    as it was: no call to the action, no lookup in and no write to the
    collection, whatever the platform would have answered. *)
Theorem custom_without_instanceKey_is_rejected route ext request w actionKey :
  Js.truthy (auth_customerId request) = true ->
  searchParams_action request = Some actionKey ->
  isCustom route actionKey = true ->
  Js.truthy (searchParams_instanceKey request) = false ->
  exists error,
    GET route ext request w = (Some (json (ErrorBody error None) (Some 400)), w).
Proof.
  intros Hauth Hact Hc Hik.
  assert (Hk : Js.truthy (Some actionKey) = true).
  { destruct route; simpl in Hc.
    - unfold Part000.isCustomForm, Part000.formId in Hc.
      destruct actionKey; [discriminate | reflexivity].
    - apply String.eqb_eq in Hc. now subst. }
  destruct route; simpl in Hc;
    [exists "Instance key is required for custom forms"
    |exists "Instance key is required for get-objects action"];
    unfold GET, Part000.GET, Part001.GET; rewrite Hauth, Hact, Hk, Hik;
    simpl negb; cbv iota; rewrite Hc; reflexivity.
Qed.

Lemma custom_without_instanceKey_is_rejected_witness :
  exists error,
    GET part_000 (Sample.connected Sample.two_pages)
        (Sample.request (Some "get-contacts") None) Sample.empty
    = (Some (json (ErrorBody error None) (Some 400)), Sample.empty).
Proof.
  apply (@custom_without_instanceKey_is_rejected part_000
           (Sample.connected Sample.two_pages)
           (Sample.request (Some "get-contacts") None) Sample.empty
           "get-contacts"); reflexivity.
Defined.

(** C6 — no-connection soft failure: for an accepted request, when the
    connection directory answers with an empty list the handler responds
    with status 200 and the body {success: false, error: "No connection
    found"}; the collection is untouched and the only collaborator calls
    are the database connection and the connection lookup. *)
Theorem no_connection_soft_failure route ext request w actionKey :
  accepted route request actionKey ->
  items ext = Some [] ->
  exists w',
    GET route ext request w
    = (Some {| status := 200;
               body := FailureBody false "No connection found" |}, w')
    /\ store w' = store w
    /\ trace w'
       = trace w ++ [ConnectToDatabase;
                     ConnectionsFind (auth_customerId request)].
Proof.
  intros Hacc Hitems. rewrite (GET_accepted ext w Hacc).
  unfold firstConnection. rewrite Hitems. simpl.
  eexists. split; [reflexivity|]. simpl. split; [reflexivity|].
  now rewrite <- app_assoc.
Qed.

Lemma no_connection_soft_failure_witness :
  exists w',
    GET part_000 {| items := Some []; responses := Sample.two_pages |}
        (Sample.request (Some "get-equipment") None) Sample.empty
    = (Some {| status := 200;
               body := FailureBody false "No connection found" |}, w')
    /\ store w' = store Sample.empty
    /\ trace w'
       = trace Sample.empty
         ++ [ConnectToDatabase; ConnectionsFind (Some "customer-1")].
Proof.
  apply (@no_connection_soft_failure part_000
           {| items := Some []; responses := Sample.two_pages |}
           (Sample.request (Some "get-equipment") None) Sample.empty
           "get-equipment").
  - repeat split; try reflexivity; [discriminate|].
    intro H. vm_compute in H. discriminate H.
  - reflexivity.
Defined.

Lemma unprefixed_is_not_custom route actionKey :
  Js.startsWith "get-" actionKey = false -> isCustom route actionKey = false.
Proof.
  intro Hp. destruct route; simpl.
  - unfold Part000.isCustomForm, Part000.formId. now rewrite Hp.
  - destruct (String.eqb_spec actionKey "get-objects") as [->|]; auto.
Qed.

(** C10 — an action key that does not start with "get-" is not custom: the
    handler never asks such a request for an instance key (the only 400 it
    can answer with is the one for a missing action key), and every record
    a run creates under it carries the action key itself as recordType. *)
Theorem unprefixed_action_is_not_custom route ext request w actionKey :
  Js.startsWith "get-" actionKey = false ->
  searchParams_action request = Some actionKey ->
  isCustom route actionKey = false
  /\ (forall response,
        fst (GET route ext request w) = Some response ->
        status response = 400 ->
        body response = ErrorBody "Action key is required" None)
  /\ (forall r, In r (imported route ext request w) ->
                recordType r = Some actionKey).
Proof.
  intros Hp Hact. pose proof (@unprefixed_is_not_custom route actionKey Hp) as Hc.
  split; [exact Hc|]. split.
  - destruct (Js.truthy (auth_customerId request)) eqn:Hauth.
    2:{ destruct route; unfold GET, Part000.GET, Part001.GET; rewrite Hauth;
          simpl; intros response [= <-]; discriminate. }
    destruct (String.eqb_spec actionKey "") as [->|Hne].
    { destruct route; unfold GET, Part000.GET, Part001.GET;
        rewrite Hauth, Hact; simpl; intros response [= <-]; reflexivity. }
    assert (Hacc : accepted route request actionKey).
    { repeat split; auto. congruence. }
    rewrite (GET_accepted ext w Hacc).
    destruct (firstConnection ext) as [conn|];
      [destruct (pages route ext request actionKey conn w) as [[c|m|] w']|];
      simpl; intros response [= <-]; discriminate.
  - intros r Hr. rewrite (@imported_recordType route ext request w actionKey r Hact Hr).
    unfold stamp. rewrite Hc.
    reflexivity.
Qed.

Lemma unprefixed_action_is_not_custom_witness :
  isCustom part_000 "equipment" = false
  /\ (forall response,
        fst (GET part_000 (Sample.connected Sample.two_pages)
               (Sample.request (Some "equipment") None) Sample.empty)
        = Some response ->
        status response = 400 ->
        body response = ErrorBody "Action key is required" None)
  /\ (forall r,
        In r (imported part_000 (Sample.connected Sample.two_pages)
                (Sample.request (Some "equipment") None) Sample.empty) ->
        recordType r = Some "equipment").
Proof.
  apply (@unprefixed_action_is_not_custom part_000
           (Sample.connected Sample.two_pages)
           (Sample.request (Some "equipment") None) Sample.empty "equipment");
    reflexivity.
Defined.

(** Every raw record a run reads is held afterwards, under the key the
    handler gives it, whatever its name. *)
Lemma observed_record_is_held route ext request w actionKey conn x :
  accepted route request actionKey ->
  firstConnection ext = Some conn ->
  In x (observed (responses ext)) ->
  In (key_of (toSave route (auth_customerId request) actionKey
                (searchParams_instanceKey request) x))
     (map key_of (store (snd (GET route ext request w)))).
Proof.
  intros Hacc Hconn Hx. rewrite (GET_accepted ext w Hacc), Hconn.
  rewrite snd_respond. unfold pages.
  apply loop_holds; [apply toSave_customerId | exact Hx].
Qed.

(** The map callback of [part_000] fills a falsy name with the id, and with
    the label when the id is falsy too. *)
Lemma part_000_name_fallback auth actionKey instanceKey x :
  Js.truthy (name x) = false ->
  name (Part000.toSave auth actionKey instanceKey x)
  = if Js.truthy (id x) then id x else Some "Unnamed Record".
Proof.
  intro Hn. unfold Part000.toSave, Js.or. simpl. rewrite Hn.
  destruct (Js.truthy (id x)); reflexivity.
Qed.

(** On [part_000] every record a run creates was built by that callback, so
    a raw record without a name is stored under its id or the label. *)
Lemma part_000_imported_name ext request w r :
  In r (imported part_000 ext request w) ->
  exists x,
    id r = id x
    /\ name r = Js.or (Js.or (name x) (id x)) (Some "Unnamed Record").
Proof.
  intro Hr. apply imported_inv in Hr as (_ & a & x & _ & ->).
  exists x. split; reflexivity.
Qed.

(** C7 — on [part_001] the fallback is missing: a page with the one raw
    record {id: "e2"} and no name is imported as a record whose name is
    still absent, where the claim (and [part_000]) store the name "e2". *)
Theorem part_001_stores_record_without_name :
  imported part_001
    (Sample.connected [Output (Some [Sample.raw (Some "e2") None]) None])
    (Sample.request (Some "get-equipment") None) Sample.empty
  = [ {| id := Some "e2"; name := None; fields := [];
         customerId := Some "customer-1";
         recordType := Some "get-equipment" |} ]
  /\ imported part_000
       (Sample.connected [Output (Some [Sample.raw (Some "e2") None]) None])
       (Sample.request (Some "get-equipment") None) Sample.empty
     = [ {| id := Some "e2"; name := Some "e2"; fields := [];
            customerId := Some "customer-1";
            recordType := Some "get-equipment" |} ].
Proof. split; reflexivity. Qed.

(** * Further properties of the import handlers *)

Lemma lookups_app (a b : list Event) : lookups (a ++ b) = lookups a ++ lookups b.
Proof. apply flat_map_app. Qed.

Lemma created_app (a b : list Event) : created (a ++ b) = created a ++ created b.
Proof. apply flat_map_app. Qed.

Lemma events_since_app (w w' : World) (evs : list Event) :
  trace w' = trace w ++ evs -> events_since w w' = evs.
Proof.
  intro H. unfold events_since. rewrite H, skipn_app, skipn_all, Nat.sub_diag.
  reflexivity.
Qed.

Section MoreLoopFacts.

Variable auth : Js.value.
Variable actionKey : string.
Variable instanceKey : Js.value.
Variable conn : Connection.
Variable normalize : IRecord -> IRecord.

Let each := for_record_of auth.
Let batch := save_batch auth normalize.
Let loop := while_hasMoreRecords auth actionKey instanceKey conn normalize.
Let query_for := query_for auth.
Let call := call actionKey instanceKey conn.

(** *** The store calls of the loops *)

(** The inner loop looks every record up once, in order, and the records
    it passes to [create] are the ones the collection grows by. *)
Lemma for_record_of_events (rs : list IRecord) :
  forall w c, exists evs,
    trace (fst (each rs w c)) = trace w ++ evs
    /\ lookups evs = map query_for rs
    /\ store (fst (each rs w c)) = store w ++ created evs
    /\ run_calls evs = []
    /\ newRecordsCount (snd (each rs w c))
       = newRecordsCount c + List.length (created evs).
Proof.
  induction rs as [|r rs IH]; intros w c.
  - exists []. simpl. rewrite !app_nil_r. repeat split; lia.
  - unfold each. rewrite for_record_of_cons. fold each. fold query_for.
    destruct (find (matches (query_for r)) (store w)) as [found|].
    + destruct (IH (log (RecordFindOne (query_for r)) w) (bump_existing c))
        as (evs & Ht & Hl & Hs & Hr & Hn).
      exists (RecordFindOne (query_for r) :: evs).
      rewrite Ht, Hs, Hn. simpl. rewrite <- app_assoc, Hl. simpl.
      repeat split; auto.
    + destruct (IH (Record_create r (log (RecordFindOne (query_for r)) w))
                  (bump_new c)) as (evs & Ht & Hl & Hs & Hr & Hn).
      exists (RecordFindOne (query_for r) :: RecordCreate r :: evs).
      rewrite Ht, Hs, Hn. simpl. rewrite <- !app_assoc, Hl. simpl.
      repeat split; auto; lia.
Qed.

Lemma loop_events (script : list RunResult) :
  forall cur w c, exists evs,
    trace (snd (loop script cur w c)) = trace w ++ evs
    /\ lookups evs = map query_for (map normalize (observed script))
    /\ store (snd (loop script cur w c)) = store w ++ created evs
    /\ forall c', fst (loop script cur w c) = Normal c' ->
                  newRecordsCount c'
                  = newRecordsCount c + List.length (created evs).
Proof.
  induction script as [|[recs cursor|message] script IH]; intros cur w c.
  - exists [call cur]. unfold loop. simpl. rewrite app_nil_r.
    repeat split. discriminate.
  - unfold loop. rewrite loop_Output. fold loop. fold batch. fold call.
    unfold batch. rewrite save_batch_eq. fold each.
    set (c0 := {| allRecords := allRecords c ++ records_of recs;
                  newRecordsCount := newRecordsCount c;
                  existingRecordsCount := existingRecordsCount c |}).
    destruct (for_record_of_events (map normalize (records_of recs))
                (log (call cur) w) c0) as (e1 & Ht1 & Hl1 & Hs1 & _ & Hn1).
    simpl observed. destruct (Js.truthy cursor).
    + destruct (IH cursor
                  (fst (each (map normalize (records_of recs))
                          (log (call cur) w) c0))
                  (snd (each (map normalize (records_of recs))
                          (log (call cur) w) c0)))
        as (e2 & Ht2 & Hl2 & Hs2 & Hn2).
      exists (call cur :: e1 ++ e2).
      rewrite Ht2, Ht1, Hs2, Hs1. simpl.
      rewrite <- !app_assoc, !map_app. simpl.
      rewrite lookups_app, created_app, Hl1, Hl2.
      repeat split. intros c' Hc'. rewrite (Hn2 c' Hc'), Hn1, length_app.
      simpl. lia.
    + exists (call cur :: e1). simpl. rewrite Ht1, Hs1. simpl.
      rewrite <- !app_assoc, app_nil_r, Hl1. simpl.
      repeat split. intros c' [= <-]. exact Hn1.
  - exists [call cur]. unfold loop. rewrite loop_Throws. simpl.
    rewrite app_nil_r. repeat split. discriminate.
Qed.

(** *** Exceptions *)

Lemma loop_Thrown_iff (script : list RunResult) :
  forall cur w c message,
    fst (loop script cur w c) = Thrown message <-> thrown script = Some message.
Proof.
  induction script as [|[recs cursor|m] script IH]; intros cur w c message.
  - simpl. split; discriminate.
  - unfold loop. rewrite loop_Output. fold loop. simpl thrown.
    destruct (Js.truthy cursor); [apply IH|].
    simpl. split; discriminate.
  - simpl. split; intros [= <-]; reflexivity.
Qed.

(** *** The loop reads its callback on the records read only *)


(** *** Other tenants' records do not matter *)

Lemma find_tenant_records (q : Query) (st : list IRecord) :
  q_customerId q = auth ->
  find (matches q) (tenant_records auth st) = find (matches q) st.
Proof.
  intro Hq. induction st as [|r st IH]; [reflexivity|].
  simpl. destruct (Js.value_eqb (customerId r) auth) eqn:Ht; simpl.
  - now rewrite IH.
  - rewrite IH. destruct (matches q r) eqn:Hm; [|reflexivity].
    apply matches_key_of in Hm. unfold key_of in Hm. subst q. simpl in *.
    assert (Js.value_eqb (customerId r) auth = true)
      by (now apply value_eqb_eq).
    congruence.
Qed.

Lemma tenant_records_app (a b : list IRecord) :
  tenant_records auth (a ++ b) = tenant_records auth a ++ tenant_records auth b.
Proof. apply filter_app. Qed.

Lemma for_record_of_tenant (rs : list IRecord) :
  forall w w' c,
    tenant_records auth (store w) = tenant_records auth (store w') ->
    snd (each rs w c) = snd (each rs w' c)
    /\ exists added,
         store (fst (each rs w c)) = store w ++ added
         /\ store (fst (each rs w' c)) = store w' ++ added.
Proof.
  induction rs as [|r rs IH]; intros w w' c Ht.
  - split; [reflexivity|]. exists []. simpl. now rewrite !app_nil_r.
  - unfold each. rewrite !for_record_of_cons. fold each. fold query_for.
    rewrite <- (find_tenant_records (query_for r) (store w) eq_refl).
    rewrite <- (find_tenant_records (query_for r) (store w') eq_refl).
    rewrite Ht.
    destruct (find (matches (query_for r)) (tenant_records auth (store w')))
      as [found|].
    + destruct (IH (log (RecordFindOne (query_for r)) w)
                  (log (RecordFindOne (query_for r)) w') (bump_existing c) Ht)
        as (Hc & added & Hs & Hs').
      split; [exact Hc|]. exists added. auto.
    + destruct (IH (Record_create r (log (RecordFindOne (query_for r)) w))
                  (Record_create r (log (RecordFindOne (query_for r)) w'))
                  (bump_new c)) as (Hc & added & Hs & Hs').
      { simpl. rewrite !tenant_records_app. now rewrite Ht. }
      split; [exact Hc|]. exists (r :: added). rewrite Hs, Hs'. simpl.
      now rewrite <- !app_assoc.
Qed.

Lemma loop_tenant (script : list RunResult) :
  forall cur w w' c,
    tenant_records auth (store w) = tenant_records auth (store w') ->
    fst (loop script cur w c) = fst (loop script cur w' c)
    /\ exists added,
         store (snd (loop script cur w c)) = store w ++ added
         /\ store (snd (loop script cur w' c)) = store w' ++ added.
Proof.
  induction script as [|[recs cursor|m] script IH]; intros cur w w' c Ht.
  - split; [reflexivity|]. exists []. simpl. now rewrite !app_nil_r.
  - unfold loop. rewrite !loop_Output. fold loop. rewrite !save_batch_eq.
    fold each. fold call.
    set (c0 := {| allRecords := allRecords c ++ records_of recs;
                  newRecordsCount := newRecordsCount c;
                  existingRecordsCount := existingRecordsCount c |}).
    destruct (for_record_of_tenant (map normalize (records_of recs))
                (log (call cur) w) (log (call cur) w') c0 Ht)
      as (Hc & a1 & Hs & Hs').
    rewrite <- Hc. destruct (Js.truthy cursor).
    + destruct (IH cursor
                  (fst (each (map normalize (records_of recs))
                          (log (call cur) w) c0))
                  (fst (each (map normalize (records_of recs))
                          (log (call cur) w') c0))
                  (snd (each (map normalize (records_of recs))
                          (log (call cur) w) c0)))
        as (Hf & a2 & Hs2 & Hs2').
      { rewrite Hs, Hs'. simpl. rewrite !tenant_records_app. now rewrite Ht. }
      split; [exact Hf|]. exists (a1 ++ a2).
      rewrite Hs2, Hs2', Hs, Hs'. simpl. now rewrite !app_assoc.
    + simpl. split; [reflexivity|]. exists a1. auto.
  - split; [reflexivity|]. exists []. simpl. now rewrite !app_nil_r.
Qed.

Hypothesis normalize_customerId : forall r, customerId (normalize r) = auth.

(** *** No key is created twice *)

Lemma for_record_of_added_NoDup (raws : list IRecord) :
  forall w c, exists added,
    store (fst (each (map normalize raws) w c)) = store w ++ added
    /\ NoDup (map key_of added)
    /\ forall r, In r added -> ~ In (key_of r) (map key_of (store w)).
Proof.
  induction raws as [|x raws IH]; intros w c.
  - exists []. simpl. rewrite app_nil_r. repeat split; [constructor|].
    intros r [].
  - change (map normalize (x :: raws))
      with (normalize x :: map normalize raws).
    unfold each. rewrite for_record_of_cons. fold each. fold query_for.
    destruct (find (matches (query_for (normalize x))) (store w))
      as [found|] eqn:E.
    + destruct (IH (log (RecordFindOne (query_for (normalize x))) w)
                  (bump_existing c)) as (added & Hs & Hnd & Hf).
      exists added. auto.
    + destruct (IH (Record_create (normalize x)
                      (log (RecordFindOne (query_for (normalize x))) w))
                  (bump_new c)) as (added & Hs & Hnd & Hf).
      exists (normalize x :: added). rewrite Hs. simpl.
      rewrite <- app_assoc. split; [reflexivity|]. split.
      * constructor; [|exact Hnd]. intro Hin.
        apply in_map_iff in Hin as (r & Hk & Hr).
        apply (Hf r Hr). simpl. rewrite map_app, Hk. apply in_or_app.
        right. now left.
      * intros r [<- | Hr].
        -- apply find_matches_None in E. unfold query_for in E.
           rewrite (@query_for_normalize auth normalize normalize_customerId x)
             in E.
           exact E.
        -- intro Hin. apply (Hf r Hr). simpl. rewrite map_app.
           apply in_or_app. now left.
Qed.

Lemma loop_added_NoDup (script : list RunResult) :
  forall cur w c, exists added,
    store (snd (loop script cur w c)) = store w ++ added
    /\ NoDup (map key_of added)
    /\ forall r, In r added -> ~ In (key_of r) (map key_of (store w)).
Proof.
  induction script as [|[recs cursor|m] script IH]; intros cur w c.
  - exists []. simpl. rewrite app_nil_r. repeat split; [constructor|].
    intros r [].
  - unfold loop. rewrite loop_Output. fold loop. rewrite save_batch_eq.
    fold each. fold call.
    set (c0 := {| allRecords := allRecords c ++ records_of recs;
                  newRecordsCount := newRecordsCount c;
                  existingRecordsCount := existingRecordsCount c |}).
    destruct (for_record_of_added_NoDup (records_of recs) (log (call cur) w)
                c0) as (a1 & Hs1 & Hnd1 & Hf1).
    destruct (Js.truthy cursor).
    + destruct (IH cursor
                  (fst (each (map normalize (records_of recs))
                          (log (call cur) w) c0))
                  (snd (each (map normalize (records_of recs))
                          (log (call cur) w) c0)))
        as (a2 & Hs2 & Hnd2 & Hf2).
      exists (a1 ++ a2). rewrite Hs2, Hs1. simpl. rewrite app_assoc.
      split; [reflexivity|]. rewrite Hs1 in Hf2. simpl in Hf2. split.
      * rewrite map_app. apply NoDup_app; auto.
        intros k Hk1 Hk2. apply in_map_iff in Hk2 as (r & <- & Hr).
        apply (Hf2 r Hr). rewrite map_app. apply in_or_app. now right.
      * intros r Hr. apply in_app_or in Hr as [Hr|Hr]; [now apply Hf1|].
        intro Hin. apply (Hf2 r Hr). rewrite map_app. apply in_or_app.
        now left.
    + exists a1. simpl. auto.
  - exists []. simpl. rewrite app_nil_r. repeat split; [constructor|].
    intros r [].
Qed.

End MoreLoopFacts.

(** ** The handlers, continued *)

(** X1 — a request that fails one of the three guards is answered with 401
    when the customer id is missing or empty, whatever else is wrong with
    it, and with 400 otherwise; the world is returned as it was, so neither
    the database, the platform nor the collection is touched. *)
Theorem rejected_request_has_no_effect route ext request w :
  (forall actionKey, ~ accepted route request actionKey) ->
  exists error code,
    GET route ext request w
    = (Some (json (ErrorBody error None) (Some code)), w)
    /\ (if Js.truthy (auth_customerId request) then code = 400
        else code = 401 /\ error = "Unauthorized").
Proof.
  intro Hrej.
  destruct (Js.truthy (auth_customerId request)) eqn:Hauth.
  2:{ exists "Unauthorized", 401.
      destruct route; unfold GET, Part000.GET, Part001.GET; rewrite Hauth;
        simpl; auto. }
  destruct (searchParams_action request) as [actionKey|] eqn:Hact.
  2:{ exists "Action key is required", 400.
      destruct route; unfold GET, Part000.GET, Part001.GET;
        rewrite Hauth, Hact; simpl; auto. }
  destruct (Js.truthy (Some actionKey)) eqn:Hk.
  2:{ exists "Action key is required", 400.
      destruct route; unfold GET, Part000.GET, Part001.GET;
        rewrite Hauth, Hact, Hk; simpl; auto. }
  destruct (isCustom route actionKey
            && negb (Js.truthy (searchParams_instanceKey request))) eqn:Hg.
  - destruct route; simpl in Hg;
      [exists "Instance key is required for custom forms", 400
      |exists "Instance key is required for get-objects action", 400];
      unfold GET, Part000.GET, Part001.GET; rewrite Hauth, Hact, Hk;
      simpl negb; cbv iota; rewrite Hg; auto.
  - exfalso. apply (Hrej actionKey). repeat split; auto.
    + simpl in Hk. apply negb_true_iff, String.eqb_neq in Hk. exact Hk.
    + intro Hc. rewrite Hc in Hg. simpl in Hg.
      now apply negb_false_iff in Hg.
Qed.

Lemma rejected_request_has_no_effect_witness :
  exists error code,
    GET part_000 (Sample.connected Sample.two_pages)
        {| auth_customerId := Some ""; searchParams_action := None;
           searchParams_instanceKey := None |} Sample.empty
    = (Some (json (ErrorBody error None) (Some code)), Sample.empty)
    /\ (if Js.truthy (Some "") then code = 400
        else code = 401 /\ error = "Unauthorized").
Proof.
  apply (@rejected_request_has_no_effect part_000
           (Sample.connected Sample.two_pages)
           {| auth_customerId := Some ""; searchParams_action := None;
              searchParams_instanceKey := None |} Sample.empty).
  intros a (H & _). discriminate H.
Defined.

Lemma GET_trace route ext request w actionKey conn :
  accepted route request actionKey ->
  firstConnection ext = Some conn ->
  exists evs,
    trace (snd (GET route ext request w))
    = trace w
      ++ ConnectToDatabase :: ConnectionsFind (auth_customerId request) :: evs
    /\ lookups evs
       = map (fun x => key_of (toSave route (auth_customerId request)
                                 actionKey (searchParams_instanceKey request) x))
             (observed (responses ext))
    /\ store (snd (GET route ext request w)) = store w ++ created evs
    /\ forall rc n e,
         fst (GET route ext request w) = Some (summary rc n e) ->
         n = List.length (created evs).
Proof.
  intros Hacc Hconn. rewrite (GET_accepted ext w Hacc), Hconn.
  rewrite snd_respond. unfold pages.
  set (auth := auth_customerId request).
  set (ik := searchParams_instanceKey request).
  set (norm := toSave route auth actionKey ik).
  destruct (@loop_events auth actionKey ik conn norm (responses ext) None
              (connected_world auth w) init) as (evs & Ht & Hl & Hs & Hn).
  exists evs. rewrite Ht, Hs. simpl. rewrite <- !app_assoc. simpl.
  split; [reflexivity|]. split.
  - rewrite Hl, map_map. apply map_ext. intro x.
    apply query_for_normalize. apply toSave_customerId.
  - split; [reflexivity|]. intros rc n e.
    destruct (while_hasMoreRecords auth actionKey ik conn norm (responses ext)
                None (connected_world auth w) init) as [[c|m|] w'];
      simpl; intros [= _ Hnew _]; subst n.
    now rewrite (Hn c eq_refl).
Qed.

(** X2 — the calls to the action: an accepted request whose connection
    list starts with [conn] calls the action on [conn] only, with the
    request's action key and [instanceKey || undefined]; the first call has
    no cursor, each later call carries the cursor of the page before it,
    and the calls stop at the first page with a falsy cursor, the first
    exception, or the end of the script. *)
Theorem calls_follow_the_cursor route ext request w actionKey conn others :
  accepted route request actionKey ->
  items ext = Some (conn :: others) ->
  run_calls (trace (snd (GET route ext request w)))
  = run_calls (trace w)
    ++ map (fun cursor =>
              ActionRun (connection_id conn) actionKey
                (if Js.truthy (searchParams_instanceKey request)
                 then searchParams_instanceKey request else None)
                cursor)
           (cursors_sent (responses ext) None).
Proof.
  intros Hacc Hitems.
  assert (Hconn : firstConnection ext = Some conn).
  { unfold firstConnection. now rewrite Hitems. }
  rewrite (GET_accepted ext w Hacc), Hconn, snd_respond. unfold pages.
  rewrite loop_run_calls, run_calls_connected_world. reflexivity.
Qed.

Lemma calls_follow_the_cursor_witness :
  run_calls
    (trace (snd (GET part_001
                   {| items := Some [ {| connection_id := "conn-1" |};
                                      {| connection_id := "conn-2" |} ];
                      responses := Sample.two_pages |}
                   (Sample.request (Some "get-equipment") (Some ""))
                   Sample.empty)))
  = run_calls (trace Sample.empty)
    ++ map (fun cursor =>
              ActionRun "conn-1" "get-equipment"
                (if Js.truthy (Some "") then Some "" else None) cursor)
           (cursors_sent Sample.two_pages None).
Proof.
  apply (@calls_follow_the_cursor part_001
           {| items := Some [ {| connection_id := "conn-1" |};
                              {| connection_id := "conn-2" |} ];
              responses := Sample.two_pages |}
           (Sample.request (Some "get-equipment") (Some "")) Sample.empty
           "get-equipment" {| connection_id := "conn-1" |}
           [ {| connection_id := "conn-2" |} ]).
  - repeat split; try reflexivity; [discriminate|].
    intro H. vm_compute in H. discriminate H.
  - reflexivity.
Defined.

(** X3 — an exception of the action ends the run with status 500 (the
    message is reported as details by [part_000] only), and nothing is
    rolled back: the key of every record of the pages read before the
    exception is held by the collection afterwards. *)
Theorem exception_keeps_earlier_pages route ext request w actionKey conn
    message :
  accepted route request actionKey ->
  firstConnection ext = Some conn ->
  thrown (responses ext) = Some message ->
  fst (GET route ext request w)
  = Some {| status := 500;
            body := ErrorBody "Internal Server Error"
                      match route with
                      | part_000 => Some message
                      | part_001 => None
                      end |}
  /\ forall x, In x (observed (responses ext)) ->
       In (key_of (toSave route (auth_customerId request) actionKey
                     (searchParams_instanceKey request) x))
          (map key_of (store (snd (GET route ext request w)))).
Proof.
  intros Hacc Hconn Hthrown. split.
  - rewrite (GET_accepted ext w Hacc), Hconn. unfold pages.
    match goal with |- context [while_hasMoreRecords ?a ?b ?c ?d ?e ?f ?g ?h ?i] =>
      pose proof (proj2 (@loop_Thrown_iff a b c d e f g h i message) Hthrown)
        as Hf;
      destruct (while_hasMoreRecords a b c d e f g h i) as [r w'] end.
    simpl in Hf. subst r. reflexivity.
  - intros x Hx.
    apply (@observed_record_is_held route ext request w actionKey conn x);
      assumption.
Qed.

Lemma exception_keeps_earlier_pages_witness :
  fst (GET part_000
         (Sample.connected
            [ Output (Some [Sample.raw (Some "e1") None]) (Some "c1");
              Throws "timeout" ])
         (Sample.request (Some "get-equipment") None) Sample.empty)
  = Some {| status := 500;
            body := ErrorBody "Internal Server Error" (Some "timeout") |}
  /\ forall x,
       In x (observed [ Output (Some [Sample.raw (Some "e1") None]) (Some "c1");
                        Throws "timeout" ]) ->
       In (key_of (toSave part_000 (Some "customer-1") "get-equipment" None x))
          (map key_of
             (store (snd (GET part_000
                            (Sample.connected
                               [ Output (Some [Sample.raw (Some "e1") None])
                                        (Some "c1");
                                 Throws "timeout" ])
                            (Sample.request (Some "get-equipment") None)
                            Sample.empty)))).
Proof.
  apply (@exception_keeps_earlier_pages part_000
           (Sample.connected
              [ Output (Some [Sample.raw (Some "e1") None]) (Some "c1");
                Throws "timeout" ])
           (Sample.request (Some "get-equipment") None) Sample.empty
           "get-equipment" {| connection_id := "conn-1" |} "timeout");
    try reflexivity.
  repeat split; try reflexivity; [discriminate|].
  intro H. vm_compute in H. discriminate H.
Defined.

(** X4 — check, then insert, once per record: the [findOne] calls of a run
    are, in order, one per record read, each under the record's id, the
    caller's customer id and the record type the handler stamps; no other
    lookup is made. *)
Theorem every_record_is_looked_up_once route ext request w actionKey conn :
  accepted route request actionKey ->
  firstConnection ext = Some conn ->
  lookups (events_since w (snd (GET route ext request w)))
  = map (fun x => {| q_id := id x;
                     q_customerId := auth_customerId request;
                     q_recordType :=
                       if isCustom route actionKey
                       then searchParams_instanceKey request
                       else Some actionKey |})
        (observed (responses ext)).
Proof.
  intros Hacc Hconn.
  destruct (GET_trace ext w Hacc Hconn) as (evs & Ht & Hl & _).
  rewrite (@events_since_app _ _ _ Ht). simpl. rewrite Hl.
  apply map_ext. intro x. destruct route; reflexivity.
Qed.

Lemma every_record_is_looked_up_once_witness :
  lookups (events_since Sample.empty
             (snd (GET part_000 (Sample.connected Sample.two_pages)
                     (Sample.request (Some "get-objects") (Some "projects"))
                     Sample.empty)))
  = map (fun x => {| q_id := id x;
                     q_customerId := Some "customer-1";
                     q_recordType :=
                       if isCustom part_000 "get-objects"
                       then Some "projects" else Some "get-objects" |})
        (observed Sample.two_pages).
Proof.
  apply (@every_record_is_looked_up_once part_000
           (Sample.connected Sample.two_pages)
           (Sample.request (Some "get-objects") (Some "projects"))
           Sample.empty "get-objects" {| connection_id := "conn-1" |});
    [|reflexivity].
  repeat split; try reflexivity. discriminate.
Defined.

Lemma GET_created route ext request w :
  created (events_since w (snd (GET route ext request w)))
  = imported route ext request w
  /\ forall rc n e,
       fst (GET route ext request w) = Some (summary rc n e) ->
       n = List.length (imported route ext request w).
Proof.
  destruct (accepted_dec route request) as [[actionKey Hacc]|Hrej].
  - destruct (firstConnection ext) as [conn|] eqn:Hconn.
    + destruct (GET_trace ext w Hacc Hconn) as (evs & Ht & _ & Hs & Hn).
      rewrite (@events_since_app _ _ _ Ht). simpl.
      rewrite store_imported in Hs. apply app_inv_head in Hs.
      rewrite <- Hs in Hn. auto.
    + pose proof (store_imported route ext request w) as Hs. revert Hs.
      rewrite (GET_accepted ext w Hacc), Hconn. simpl. intro Hs.
      rewrite <- (app_nil_r (store w)) in Hs at 1.
      apply app_inv_head in Hs. rewrite <- Hs.
      unfold events_since. simpl. rewrite <- app_assoc.
      rewrite skipn_app, skipn_all, Nat.sub_diag. simpl.
      split; [reflexivity|]. intros rc n e H. discriminate H.
  - pose proof (store_imported route ext request w) as Hs. revert Hs.
    destruct (GET_rejected ext w Hrej) as (error & code & -> & _).
    simpl. intro Hs. rewrite <- (app_nil_r (store w)) in Hs at 1.
    apply app_inv_head in Hs. rewrite <- Hs.
    unfold events_since. rewrite skipn_all. simpl.
    split; [reflexivity|]. intros rc n e H. discriminate H.
Qed.

(** X5 — newRecordsCount counts the insertions: the records passed to
    [create] during a run are exactly the records the collection grew by,
    and when the run ends with a summary its newRecordsCount is their
    number. *)
Theorem newRecordsCount_counts_the_insertions route ext request w rc n e w' :
  GET route ext request w = (Some (summary rc n e), w') ->
  created (events_since w w') = imported route ext request w
  /\ n = List.length (imported route ext request w).
Proof.
  intro Hget. destruct (GET_created route ext request w) as [Hc Hn].
  rewrite Hget in Hc, Hn. simpl in Hc, Hn. split; [exact Hc|].
  now apply (Hn rc n e).
Qed.

Lemma newRecordsCount_counts_the_insertions_witness :
  created (events_since Sample.empty
             (snd (GET part_000 (Sample.connected Sample.two_pages)
                     (Sample.request (Some "get-equipment") None)
                     Sample.empty)))
  = imported part_000 (Sample.connected Sample.two_pages)
      (Sample.request (Some "get-equipment") None) Sample.empty
  /\ 3 = List.length
           (imported part_000 (Sample.connected Sample.two_pages)
              (Sample.request (Some "get-equipment") None) Sample.empty).
Proof.
  apply (@newRecordsCount_counts_the_insertions part_000
           (Sample.connected Sample.two_pages)
           (Sample.request (Some "get-equipment") None) Sample.empty 3 3 0).
  reflexivity.
Defined.

(** X6 — what a run creates: the records created in one run have pairwise
    distinct key triples, even when the pages repeat a record and even when
    the collection held duplicates before; and each of them belongs to the
    caller's tenant. *)
Theorem imported_records_are_distinct_and_owned route ext request w :
  NoDup (map key_of (imported route ext request w))
  /\ forall r, In r (imported route ext request w) ->
               customerId r = auth_customerId request.
Proof.
  split.
  - destruct (accepted_dec route request) as [[actionKey Hacc]|Hrej].
    + pose proof (store_imported route ext request w) as Hs. revert Hs.
      rewrite (GET_accepted ext w Hacc).
      destruct (firstConnection ext) as [conn|].
      * rewrite snd_respond. unfold pages.
        match goal with |- context [while_hasMoreRecords ?a ?b ?c ?d ?e ?f ?g ?h ?i] =>
          destruct (@loop_added_NoDup a b c d e
                      (toSave_customerId route a b c) f g h i)
            as (added & Hs' & Hnd & _) end.
        rewrite Hs'. simpl. intro Hs. apply app_inv_head in Hs.
        now rewrite <- Hs.
      * simpl. intro Hs. rewrite <- (app_nil_r (store w)) in Hs at 1.
        apply app_inv_head in Hs. rewrite <- Hs. constructor.
    + pose proof (store_imported route ext request w) as Hs. revert Hs.
      destruct (GET_rejected ext w Hrej) as (error & code & -> & _).
      simpl. intro Hs. rewrite <- (app_nil_r (store w)) in Hs at 1.
      apply app_inv_head in Hs. rewrite <- Hs. constructor.
  - intros r Hr. apply imported_inv in Hr as (_ & a & x & _ & ->).
    apply toSave_customerId.
Qed.

Lemma imported_records_are_distinct_and_owned_witness :
  NoDup (map key_of
           (imported part_001
              (Sample.connected
                 [ Output (Some [Sample.raw (Some "e1") None;
                                 Sample.raw (Some "e1") (Some "again")])
                          None ])
              (Sample.request (Some "get-equipment") None) Sample.empty))
  /\ forall r,
       In r (imported part_001
               (Sample.connected
                  [ Output (Some [Sample.raw (Some "e1") None;
                                  Sample.raw (Some "e1") (Some "again")])
                           None ])
               (Sample.request (Some "get-equipment") None) Sample.empty) ->
       customerId r = Some "customer-1".
Proof.
  apply (imported_records_are_distinct_and_owned part_001
           (Sample.connected
              [ Output (Some [Sample.raw (Some "e1") None;
                              Sample.raw (Some "e1") (Some "again")])
                       None ])
           (Sample.request (Some "get-equipment") None) Sample.empty).
Defined.



Lemma rejected_request_shape route ext request w1 w2 :
  (forall actionKey, ~ accepted route request actionKey) ->
  fst (GET route ext request w1) = fst (GET route ext request w2)
  /\ snd (GET route ext request w2) = w2.
Proof.
  intro Hrej.
  destruct (Js.truthy (auth_customerId request)) eqn:Hauth.
  2:{ destruct route; unfold GET, Part000.GET, Part001.GET; rewrite Hauth;
        simpl; auto. }
  destruct (searchParams_action request) as [actionKey|] eqn:Hact.
  2:{ destruct route; unfold GET, Part000.GET, Part001.GET;
        rewrite Hauth, Hact; simpl; auto. }
  destruct (Js.truthy (Some actionKey)) eqn:Hk.
  2:{ destruct route; unfold GET, Part000.GET, Part001.GET;
        rewrite Hauth, Hact, Hk; simpl; auto. }
  destruct (isCustom route actionKey
            && negb (Js.truthy (searchParams_instanceKey request))) eqn:Hg.
  - destruct route; simpl in Hg;
      unfold GET, Part000.GET, Part001.GET; rewrite Hauth, Hact, Hk;
      simpl negb; cbv iota; rewrite Hg; auto.
  - exfalso. apply (Hrej actionKey). repeat split; auto.
    + simpl in Hk. apply negb_true_iff, String.eqb_neq in Hk. exact Hk.
    + intro Hc. rewrite Hc in Hg. simpl in Hg.
      now apply negb_false_iff in Hg.
Qed.

(** X8 — tenants are isolated: the answer of a run and the records it
    creates depend on the collection only through the caller's own records.
    Two collections that hold the same records of the caller, whatever they
    hold of other tenants, give the same response and the same insertions. *)
Theorem other_tenants_records_do_not_matter route ext request w1 w2 :
  tenant_records (auth_customerId request) (store w1)
  = tenant_records (auth_customerId request) (store w2) ->
  fst (GET route ext request w1) = fst (GET route ext request w2)
  /\ imported route ext request w1 = imported route ext request w2.
Proof.
  intro Ht.
  pose proof (store_imported route ext request w1) as Hs1.
  pose proof (store_imported route ext request w2) as Hs2.
  revert Hs1 Hs2.
  destruct (accepted_dec route request) as [[actionKey Hacc]|Hrej].
  - rewrite (GET_accepted ext w1 Hacc), (GET_accepted ext w2 Hacc).
    destruct (firstConnection ext) as [conn|].
    + rewrite !snd_respond. unfold pages.
      set (auth := auth_customerId request) in *.
      set (ik := searchParams_instanceKey request).
      set (norm := toSave route auth actionKey ik).
      destruct (@loop_tenant auth actionKey ik conn norm (responses ext) None
                  (connected_world auth w1) (connected_world auth w2) init Ht)
        as (Hf & added & Ha1 & Ha2).
      rewrite Ha1, Ha2. simpl. intros Hs1 Hs2.
      apply app_inv_head in Hs1, Hs2. split; [|congruence].
      destruct (while_hasMoreRecords auth actionKey ik conn norm
                  (responses ext) None (connected_world auth w1) init)
        as [r1 v1].
      destruct (while_hasMoreRecords auth actionKey ik conn norm
                  (responses ext) None (connected_world auth w2) init)
        as [r2 v2].
      simpl in Hf. subst r2. destruct r1; reflexivity.
    + simpl. intros Hs1 Hs2.
      rewrite <- (app_nil_r (store w1)) in Hs1 at 1.
      rewrite <- (app_nil_r (store w2)) in Hs2 at 1.
      apply app_inv_head in Hs1, Hs2. split; [reflexivity | congruence].
  - destruct (@rejected_request_shape route ext request w1 w2 Hrej)
      as [Hf Hw].
    destruct (@rejected_request_shape route ext request w2 w1 Hrej)
      as [_ Hw1].
    rewrite Hw, Hw1. intros Hs1 Hs2.
    rewrite <- (app_nil_r (store w1)) in Hs1 at 1.
    rewrite <- (app_nil_r (store w2)) in Hs2 at 1.
    apply app_inv_head in Hs1, Hs2. split; [|congruence].
    rewrite Hf. reflexivity.
Qed.

Lemma other_tenants_records_do_not_matter_witness :
  fst (GET part_000 (Sample.connected Sample.two_pages)
         (Sample.request (Some "get-equipment") None) Sample.empty)
  = fst (GET part_000 (Sample.connected Sample.two_pages)
           (Sample.request (Some "get-equipment") None)
           {| store := [ {| id := Some "e1"; name := Some "Drill";
                            fields := []; customerId := Some "customer-2";
                            recordType := Some "get-equipment" |} ];
              trace := [] |})
  /\ imported part_000 (Sample.connected Sample.two_pages)
       (Sample.request (Some "get-equipment") None) Sample.empty
     = imported part_000 (Sample.connected Sample.two_pages)
         (Sample.request (Some "get-equipment") None)
         {| store := [ {| id := Some "e1"; name := Some "Drill";
                          fields := []; customerId := Some "customer-2";
                          recordType := Some "get-equipment" |} ];
            trace := [] |}.
Proof.
  apply (@other_tenants_records_do_not_matter part_000
           (Sample.connected Sample.two_pages)
           (Sample.request (Some "get-equipment") None) Sample.empty
           {| store := [ {| id := Some "e1"; name := Some "Drill";
                            fields := []; customerId := Some "customer-2";
                            recordType := Some "get-equipment" |} ];
              trace := [] |}).
  reflexivity.
Defined.

(** X9 — nothing new, nothing written: when the script of pages completes
    and the collection already holds the key of every record read, the run
    leaves the collection as it was and its summary reports every record
    as existing and none as new. *)
Theorem run_over_held_keys_writes_nothing route ext request w actionKey conn :
  accepted route request actionKey ->
  firstConnection ext = Some conn ->
  completes (responses ext) = true ->
  (forall x, In x (observed (responses ext)) ->
     In {| q_id := id x;
           q_customerId := auth_customerId request;
           q_recordType := if isCustom route actionKey
                           then searchParams_instanceKey request
                           else Some actionKey |}
        (map key_of (store w))) ->
  fst (GET route ext request w)
  = Some (summary (List.length (observed (responses ext))) 0
            (List.length (observed (responses ext))))
  /\ store (snd (GET route ext request w)) = store w.
Proof.
  intros Hacc Hconn Hc Hheld.
  rewrite (GET_accepted ext w Hacc), Hconn. unfold pages.
  set (auth := auth_customerId request) in *.
  set (ik := searchParams_instanceKey request) in *.
  set (norm := toSave route auth actionKey ik).
  destruct (@loop_all_held auth actionKey ik conn norm
              (toSave_customerId route auth actionKey ik) (responses ext)
              None (connected_world auth w) init Hc) as [Hs Hf].
  { intros x Hx. simpl. specialize (Hheld x Hx).
    replace (key_of (norm x))
      with {| q_id := id x; q_customerId := auth;
              q_recordType := if isCustom route actionKey then ik
                              else Some actionKey |}; [exact Hheld|].
    unfold norm. destruct route; reflexivity. }
  destruct (while_hasMoreRecords auth actionKey ik conn norm (responses ext)
              None (connected_world auth w) init) as [r w'].
  simpl in Hs, Hf. subst r. simpl. split; [reflexivity | exact Hs].
Qed.

Lemma run_over_held_keys_writes_nothing_witness :
  fst (GET part_001
         (Sample.connected [Output (Some [Sample.raw (Some "e1") None]) None])
         (Sample.request (Some "get-objects") (Some "projects"))
         {| store := [ {| id := Some "e1"; name := Some "Old name";
                          fields := [("k", "v")];
                          customerId := Some "customer-1";
                          recordType := Some "projects" |} ];
            trace := [] |})
  = Some (summary
            (List.length
               (observed [Output (Some [Sample.raw (Some "e1") None]) None]))
            0
            (List.length
               (observed [Output (Some [Sample.raw (Some "e1") None]) None])))
  /\ store (snd (GET part_001
                   (Sample.connected
                      [Output (Some [Sample.raw (Some "e1") None]) None])
                   (Sample.request (Some "get-objects") (Some "projects"))
                   {| store := [ {| id := Some "e1"; name := Some "Old name";
                                    fields := [("k", "v")];
                                    customerId := Some "customer-1";
                                    recordType := Some "projects" |} ];
                      trace := [] |}))
     = [ {| id := Some "e1"; name := Some "Old name"; fields := [("k", "v")];
            customerId := Some "customer-1";
            recordType := Some "projects" |} ].
Proof.
  apply (@run_over_held_keys_writes_nothing part_001
           (Sample.connected [Output (Some [Sample.raw (Some "e1") None]) None])
           (Sample.request (Some "get-objects") (Some "projects"))
           {| store := [ {| id := Some "e1"; name := Some "Old name";
                            fields := [("k", "v")];
                            customerId := Some "customer-1";
                            recordType := Some "projects" |} ];
              trace := [] |}
           "get-objects" {| connection_id := "conn-1" |}).
  - repeat split; try reflexivity. discriminate.
  - reflexivity.
  - reflexivity.
  - intros x [<- | []]. left. reflexivity.
Defined.




(** * The webhook dispatch *)

Lemma includes_In (x : string) (l : list string) :
  Js.includes x l = true <-> In x l.
Proof.
  unfold Js.includes. rewrite existsb_exists. split.
  - intros (y & Hy & He). apply String.eqb_eq in He. now subst.
  - intro H. exists x. split; [exact H | apply String.eqb_refl].
Qed.

Lemma webhook_recordType_Some (payload : Webhook.Payload) (k : string) :
  Webhook.p_instanceKey payload = Some k -> Webhook.recordType payload = k.
Proof.
  intro H. unfold Webhook.recordType, Js.or. rewrite H. simpl.
  destruct (String.eqb_spec k "") as [->|]; reflexivity.
Qed.

(** X11 — which URL a webhook goes to: the POST goes to the custom URL
    unless the payload's instanceKey is the key of an action configured as
    default and the key, with its first "get-" removed, names an entry of
    WEBHOOK_URLS; a dedicated URL is never chosen otherwise. *)
Theorem dedicated_url_needs_a_default_key actions payload u :
  Webhook.webhookUrl actions payload = Webhook.Url u ->
  u <> Webhook.custom_url ->
  exists k,
    Webhook.p_instanceKey payload = Some k
    /\ In k (Webhook.defaultFormTypes actions)
    /\ Webhook.own (Js.replace "get-" "" k) Webhook.WEBHOOK_URLS = Some u.
Proof.
  unfold Webhook.webhookUrl, Webhook.isDefaultType. intros Hurl Hne.
  destruct (Js.includes (Webhook.recordType payload)
              (Webhook.defaultFormTypes actions)) eqn:Hd.
  2:{ injection Hurl as <-. contradiction. }
  apply includes_In in Hd.
  destruct (Webhook.has (Js.replace "get-" "" (Webhook.recordType payload)))
    eqn:Hh.
  2:{ injection Hurl as <-. contradiction. }
  unfold Webhook.get in Hurl.
  destruct (Webhook.own (Js.replace "get-" "" (Webhook.recordType payload))
              Webhook.WEBHOOK_URLS) as [u'|] eqn:Ho; [|discriminate].
  injection Hurl as ->.
  destruct (Webhook.p_instanceKey payload) as [k|] eqn:Hk.
  - exists k. rewrite (webhook_recordType_Some payload Hk) in Hd, Ho. auto.
  - exfalso. unfold Webhook.recordType, Js.or in Ho. rewrite Hk in Ho.
    simpl in Ho. discriminate.
Qed.

Lemma dedicated_url_needs_a_default_key_witness :
  exists k,
    Webhook.p_instanceKey
      {| Webhook.p_type := "created";
         Webhook.p_data := Sample.raw (Some "c1") (Some "Ada");
         Webhook.p_customerId := Some "customer-1";
         Webhook.p_instanceKey := Some "get-contacts" |} = Some k
    /\ In k (Webhook.defaultFormTypes
               [ {| Constants.key := "get-contacts";
                    Constants.name := "Contacts";
                    Constants.type := "default" |} ])
    /\ Webhook.own (Js.replace "get-" "" k) Webhook.WEBHOOK_URLS
       = Some "https://api.integration.app/webhooks/app-events/4940cec8-9d47-41dd-8d8a-43c6741b048d".
Proof.
  apply (@dedicated_url_needs_a_default_key
           [ {| Constants.key := "get-contacts"; Constants.name := "Contacts";
                Constants.type := "default" |} ]
           {| Webhook.p_type := "created";
              Webhook.p_data := Sample.raw (Some "c1") (Some "Ada");
              Webhook.p_customerId := Some "customer-1";
              Webhook.p_instanceKey := Some "get-contacts" |}).
  - reflexivity.
  - vm_compute. discriminate.
Defined.

(** X12 — with the constants as shipped the dedicated URLs are dead: the
    only default action is "get-equipment", and "equipment" names no entry
    of WEBHOOK_URLS, so every payload whatsoever is posted to the custom
    URL. *)
Theorem shipped_constants_always_post_to_custom fetch payload :
  Webhook.url (fst (Webhook.sendToWebhook Constants.RECORD_ACTIONS fetch
                      payload))
  = Webhook.Url Webhook.custom_url.
Proof.
  simpl. unfold Webhook.webhookUrl, Webhook.isDefaultType.
  destruct (Js.includes (Webhook.recordType payload)
              (Webhook.defaultFormTypes Constants.RECORD_ACTIONS)) eqn:Hd;
    [|reflexivity].
  apply includes_In in Hd. simpl in Hd. destruct Hd as [<- | []].
  reflexivity.
Qed.

(** X13 — what is posted: provided no default action has the empty key,
    the body of the POST always carries an instanceKey, namely
    [payload.instanceKey || ""], also for a default type and also when the
    caller gave none; type, data and customerId are passed on unchanged. *)
Theorem posted_body_always_has_instanceKey actions fetch payload :
  ~ In "" (Webhook.defaultFormTypes actions) ->
  Webhook.post_body (fst (Webhook.sendToWebhook actions fetch payload))
  = {| Webhook.p_type := Webhook.p_type payload;
       Webhook.p_data := Webhook.p_data payload;
       Webhook.p_customerId := Webhook.p_customerId payload;
       Webhook.p_instanceKey :=
         Some (match Webhook.p_instanceKey payload with
               | Some k => k
               | None => ""
               end) |}.
Proof.
  intro Hne. simpl. unfold Webhook.finalPayload, Webhook.isDefaultType.
  assert (Hrt : Webhook.recordType payload
                = match Webhook.p_instanceKey payload with
                  | Some k => k
                  | None => ""
                  end).
  { destruct (Webhook.p_instanceKey payload) as [k|] eqn:Hk.
    - now apply webhook_recordType_Some.
    - unfold Webhook.recordType, Js.or. now rewrite Hk. }
  destruct (Js.includes (Webhook.recordType payload)
              (Webhook.defaultFormTypes actions)) eqn:Hd; simpl.
  - apply includes_In in Hd. destruct payload as [t d c [k|]]; simpl in *.
    + reflexivity.
    + rewrite Hrt in Hd. contradiction.
  - now rewrite Hrt.
Qed.

Lemma posted_body_always_has_instanceKey_witness :
  Webhook.post_body
    (fst (Webhook.sendToWebhook Constants.RECORD_ACTIONS
            (fun _ => Webhook.Rejected "offline")
            {| Webhook.p_type := "deleted";
               Webhook.p_data := Sample.raw (Some "e1") None;
               Webhook.p_customerId := Some "customer-1";
               Webhook.p_instanceKey := None |}))
  = {| Webhook.p_type := "deleted";
       Webhook.p_data := Sample.raw (Some "e1") None;
       Webhook.p_customerId := Some "customer-1";
       Webhook.p_instanceKey := Some "" |}.
Proof.
  apply (@posted_body_always_has_instanceKey Constants.RECORD_ACTIONS
           (fun _ => Webhook.Rejected "offline")
           {| Webhook.p_type := "deleted";
              Webhook.p_data := Sample.raw (Some "e1") None;
              Webhook.p_customerId := Some "customer-1";
              Webhook.p_instanceKey := None |}).
  simpl. intros [H | []]. discriminate H.
Defined.

(** X14 — no failure is swallowed: [sendToWebhook] returns a value only
    when [fetch] answered the POST it built with an ok response whose body
    parses, and then it returns that body; a rejection, a response that is
    not ok and a body that does not parse are all thrown to the caller. *)
Theorem webhook_returns_only_on_ok actions fetch payload v :
  snd (Webhook.sendToWebhook actions fetch payload) = Webhook.Returned v
  <-> exists statusText,
        fetch (fst (Webhook.sendToWebhook actions fetch payload))
        = Webhook.Response true statusText (Webhook.Parsed v).
Proof.
  simpl.
  destruct (fetch {| Webhook.url := Webhook.webhookUrl actions payload;
                     Webhook.post_body := Webhook.finalPayload actions payload |})
    as [m | [|] st [v' | m]]; simpl; split;
    try (intros [st' H]); try discriminate.
  - intros [= ->]. eauto.
  - injection H as _ ->. reflexivity.
Qed.

(** * The import routes and the webhook together *)

Lemma substring_all (s : string) : String.substring 0 (String.length s) s = s.
Proof. induction s as [|c s IH]; simpl; [reflexivity | now rewrite IH]. Qed.

Lemma substring_split (n : nat) :
  forall s : string,
    s = (String.substring 0 n s
         ++ String.substring n (String.length s - n) s)%string.
Proof.
  induction n as [|n IH]; intros [|c s]; simpl; try reflexivity.
  - now rewrite substring_all.
  - now rewrite <- IH.
Qed.

Lemma startsWith_get (a : string) :
  Js.startsWith "get-" a = true -> a = ("get-" ++ Js.substring 4 a)%string.
Proof.
  unfold Js.startsWith, Js.substring. intro Hp.
  apply String.prefix_correct in Hp. simpl String.length in Hp.
  rewrite <- Hp. apply substring_split.
Qed.

(** X15 — the two classifications agree on prefixed keys: for a record
    that [part_000] imported under an action key "get-" followed by a
    non-empty name, with an instance key that is not itself the key of a
    default action, the webhook (given the record's type as instanceKey)
    treats the record as a default type exactly when the import route did
    not treat the action as custom. *)
Theorem webhook_and_import_classify_alike ext request w actionKey r payload :
  accepted part_000 request actionKey ->
  Js.startsWith "get-" actionKey = true ->
  actionKey <> "get-" ->
  (forall k, searchParams_instanceKey request = Some k ->
             ~ In k (Webhook.defaultFormTypes Constants.RECORD_ACTIONS)) ->
  In r (imported part_000 ext request w) ->
  Webhook.p_instanceKey payload = recordType r ->
  Webhook.isDefaultType Constants.RECORD_ACTIONS payload
  = negb (Part000.isCustomForm actionKey).
Proof.
  intros Hacc Hp Hne Hik Hr Hpay.
  destruct Hacc as (_ & Hact & _ & Hreq).
  rewrite (@imported_recordType part_000 ext request w actionKey r Hact Hr)
    in Hpay.
  unfold stamp in Hpay. simpl in Hpay, Hreq.
  unfold Webhook.isDefaultType.
  destruct (Part000.isCustomForm actionKey) eqn:Hc; cbn [negb].
  - specialize (Hreq eq_refl).
    destruct (searchParams_instanceKey request) as [k|] eqn:Hk;
      [|discriminate].
    rewrite (webhook_recordType_Some payload Hpay).
    destruct (Js.includes k (Webhook.defaultFormTypes Constants.RECORD_ACTIONS))
      eqn:Hin; [|reflexivity].
    apply includes_In in Hin. exfalso. exact (Hik k eq_refl Hin).
  - rewrite (webhook_recordType_Some payload Hpay).
    unfold Part000.isCustomForm, Part000.formId in Hc. rewrite Hp in Hc.
    pose proof (startsWith_get actionKey Hp) as Ha.
    destruct (Js.substring 4 actionKey) as [|c f] eqn:Hf.
    { exfalso. apply Hne. rewrite Ha. reflexivity. }
    assert (Ht : Js.truthy (Some (String c f)) = true) by reflexivity.
    rewrite Ht, Bool.andb_true_l in Hc.
    apply negb_false_iff, includes_In in Hc.
    change Part000.defaultFormTypes with ["equipment"] in Hc.
    destruct Hc as [Hc | []]. rewrite Ha, <- Hc. reflexivity.
Qed.

Lemma webhook_and_import_classify_alike_witness :
  Webhook.isDefaultType Constants.RECORD_ACTIONS
    {| Webhook.p_type := "updated";
       Webhook.p_data := Sample.raw (Some "e1") (Some "Drill");
       Webhook.p_customerId := Some "customer-1";
       Webhook.p_instanceKey := Some "get-equipment" |}
  = negb (Part000.isCustomForm "get-equipment").
Proof.
  apply (@webhook_and_import_classify_alike
           (Sample.connected Sample.two_pages)
           (Sample.request (Some "get-equipment") None) Sample.empty
           "get-equipment"
           {| id := Some "e1"; name := Some "Drill"; fields := [];
              customerId := Some "customer-1";
              recordType := Some "get-equipment" |}).
  - repeat split; try reflexivity; [discriminate|].
    intro H. vm_compute in H. discriminate H.
  - reflexivity.
  - discriminate.
  - intros k H. discriminate H.
  - vm_compute. left. reflexivity.
  - reflexivity.
Defined.

(** X16 — and they disagree on unprefixed keys: a record imported under an
    action key that does not start with "get-" was imported as a default
    type (no instance key asked, the key itself stamped), yet the webhook,
    given the record's type as instanceKey, treats it as custom and adds
    that type as instanceKey to the body it posts to the custom URL. *)
Theorem unprefixed_records_are_custom_for_the_webhook ext request w actionKey
    r fetch payload :
  searchParams_action request = Some actionKey ->
  Js.startsWith "get-" actionKey = false ->
  In r (imported part_000 ext request w) ->
  Webhook.p_instanceKey payload = recordType r ->
  Part000.isCustomForm actionKey = false
  /\ Webhook.isDefaultType Constants.RECORD_ACTIONS payload = false
  /\ fst (Webhook.sendToWebhook Constants.RECORD_ACTIONS fetch payload)
     = {| Webhook.url := Webhook.Url Webhook.custom_url;
          Webhook.post_body :=
            {| Webhook.p_type := Webhook.p_type payload;
               Webhook.p_data := Webhook.p_data payload;
               Webhook.p_customerId := Webhook.p_customerId payload;
               Webhook.p_instanceKey := Some actionKey |} |}.
Proof.
  intros Hact Hp Hr Hpay.
  pose proof (@unprefixed_is_not_custom part_000 actionKey Hp) as Hc.
  simpl in Hc. split; [exact Hc|].
  rewrite (@imported_recordType part_000 ext request w actionKey r Hact Hr)
    in Hpay.
  unfold stamp in Hpay. simpl in Hpay. rewrite Hc in Hpay.
  assert (Hd : Webhook.isDefaultType Constants.RECORD_ACTIONS payload = false).
  { unfold Webhook.isDefaultType.
    rewrite (webhook_recordType_Some payload Hpay).
    destruct (Js.includes actionKey
                (Webhook.defaultFormTypes Constants.RECORD_ACTIONS)) eqn:Hin;
      [|reflexivity].
    apply includes_In in Hin. simpl in Hin. destruct Hin as [<- | []].
    discriminate Hp. }
  split; [exact Hd|].
  simpl. unfold Webhook.webhookUrl, Webhook.finalPayload. rewrite Hd. simpl.
  now rewrite (webhook_recordType_Some payload Hpay).
Qed.

Lemma unprefixed_records_are_custom_for_the_webhook_witness :
  Part000.isCustomForm "equipment" = false
  /\ Webhook.isDefaultType Constants.RECORD_ACTIONS
       {| Webhook.p_type := "updated";
          Webhook.p_data := Sample.raw (Some "e1") (Some "Drill");
          Webhook.p_customerId := Some "customer-1";
          Webhook.p_instanceKey := Some "equipment" |} = false
  /\ fst (Webhook.sendToWebhook Constants.RECORD_ACTIONS
            (fun _ => Webhook.Rejected "offline")
            {| Webhook.p_type := "updated";
               Webhook.p_data := Sample.raw (Some "e1") (Some "Drill");
               Webhook.p_customerId := Some "customer-1";
               Webhook.p_instanceKey := Some "equipment" |})
     = {| Webhook.url := Webhook.Url Webhook.custom_url;
          Webhook.post_body :=
            {| Webhook.p_type := "updated";
               Webhook.p_data := Sample.raw (Some "e1") (Some "Drill");
               Webhook.p_customerId := Some "customer-1";
               Webhook.p_instanceKey := Some "equipment" |} |}.
Proof.
  apply (@unprefixed_records_are_custom_for_the_webhook
           (Sample.connected Sample.two_pages)
           (Sample.request (Some "equipment") None) Sample.empty "equipment"
           {| id := Some "e1"; name := Some "Drill"; fields := [];
              customerId := Some "customer-1";
              recordType := Some "equipment" |}
           (fun _ => Webhook.Rejected "offline")
           {| Webhook.p_type := "updated";
              Webhook.p_data := Sample.raw (Some "e1") (Some "Drill");
              Webhook.p_customerId := Some "customer-1";
              Webhook.p_instanceKey := Some "equipment" |}).
  - reflexivity.
  - reflexivity.
  - vm_compute. left. reflexivity.
  - reflexivity.
Defined.

(** * Two more laws of the import route *)

(** X17 — when a run ends with a summary: for an accepted request with a
    connection, the run ends with a summary exactly when the answers of the
    action reach a page with a falsy cursor before any exception, however
    many pages that takes; recordsCount is then the number of records of
    the pages up to and including that page. *)
Theorem summary_iff_script_completes route ext request w actionKey conn :
  accepted route request actionKey ->
  firstConnection ext = Some conn ->
  (completes (responses ext) = true
   <-> exists rc n e, fst (GET route ext request w) = Some (summary rc n e))
  /\ (forall rc n e,
        fst (GET route ext request w) = Some (summary rc n e) ->
        rc = List.length (observed (responses ext))).
Proof.
  intros Hacc Hconn. rewrite (GET_accepted ext w Hacc), Hconn. unfold pages.
  set (auth := auth_customerId request).
  set (ik := searchParams_instanceKey request).
  set (norm := toSave route auth actionKey ik).
  pose proof (@loop_Normal_iff auth actionKey ik conn norm (responses ext) None
                (connected_world auth w) init) as Hiff.
  pose proof (@loop_counts auth actionKey ik conn norm (responses ext) None
                (connected_world auth w) init) as Hcount.
  destruct (while_hasMoreRecords auth actionKey ik conn norm (responses ext)
              None (connected_world auth w) init) as [[c|m|] w'];
    simpl in *.
  - split.
    + split; [intros _; do 3 eexists; reflexivity|].
      intros _. apply Hiff. eauto.
    + intros rc n e [= <- _ _]. destruct (Hcount c eq_refl) as [Ha _].
      now rewrite Ha.
  - split.
    + split; [|intros (rc & n & e & H); discriminate].
      intro Hc. apply Hiff in Hc as [c' Hc']. discriminate.
    + intros rc n e H. discriminate.
  - split.
    + split; [|intros (rc & n & e & H); discriminate].
      intro Hc. apply Hiff in Hc as [c' Hc']. discriminate.
    + intros rc n e H. discriminate.
Qed.

Lemma summary_iff_script_completes_witness :
  (completes (Sample.two_pages ++ [Throws "never asked"]) = true
   <-> exists rc n e,
         fst (GET part_000
                (Sample.connected (Sample.two_pages ++ [Throws "never asked"]))
                (Sample.request (Some "get-equipment") None) Sample.empty)
         = Some (summary rc n e))
  /\ (forall rc n e,
        fst (GET part_000
               (Sample.connected (Sample.two_pages ++ [Throws "never asked"]))
               (Sample.request (Some "get-equipment") None) Sample.empty)
        = Some (summary rc n e) ->
        rc = List.length
               (observed (Sample.two_pages ++ [Throws "never asked"]))).
Proof.
  apply (@summary_iff_script_completes part_000
           (Sample.connected (Sample.two_pages ++ [Throws "never asked"]))
           (Sample.request (Some "get-equipment") None) Sample.empty
           "get-equipment" {| connection_id := "conn-1" |}); [|reflexivity].
  repeat split; try reflexivity; [discriminate|].
  intro H. vm_compute in H. discriminate H.
Defined.

(** X18 — which actions [part_000] treats as custom, with the constants as
    shipped: exactly the keys made of "get-" and a non-empty name other
    than "equipment".  Every other key (no prefix, the bare prefix, or
    "get-equipment") is imported without an instance key. *)
Theorem isCustomForm_iff (actionKey : string) :
  Part000.isCustomForm actionKey = true
  <-> exists f, actionKey = ("get-" ++ f)%string
                /\ f <> "" /\ f <> "equipment".
Proof.
  unfold Part000.isCustomForm, Part000.formId. split.
  - destruct (Js.startsWith "get-" actionKey) eqn:Hp; [|discriminate].
    intro H. apply andb_true_iff in H as [Ht Hn].
    exists (Js.substring 4 actionKey).
    split; [now apply startsWith_get|]. split.
    + simpl in Ht. apply negb_true_iff, String.eqb_neq in Ht. exact Ht.
    + intro He. rewrite He in Hn. discriminate Hn.
  - intros (f & -> & Hne & Hnq).
    assert (Hp : Js.startsWith "get-" ("get-" ++ f) = true).
    { unfold Js.startsWith. apply String.prefix_correct. simpl.
      now destruct f. }
    assert (Hs : Js.substring 4 ("get-" ++ f) = f).
    { unfold Js.substring. simpl. rewrite Nat.sub_0_r. apply substring_all. }
    rewrite Hp, Hs. apply andb_true_iff. split.
    + simpl. apply negb_true_iff, String.eqb_neq. exact Hne.
    + apply negb_true_iff.
      destruct (Js.includes f Part000.defaultFormTypes) eqn:Hi;
        [|reflexivity].
      apply includes_In in Hi.
      change Part000.defaultFormTypes with ["equipment"] in Hi.
      destruct Hi as [Hi | []]. congruence.
Qed.
